(** * The WebGL demo's control loop ([src/main.ts]) and its icosphere

    The development has two parts.

    - Part I embeds [src/main.ts]: the module-level variables, [loadScene],
      [main] and the per-frame callback [tick], as programs of a small
      state, exception and output monad over a [World].  Calls into
      collaborators (the GL context, the renderer, dat.GUI, the stats
      overlay) are recorded as [Event]s, so that statements such as "a draw
      was issued" or "the icosphere was rebuilt" become statements about
      the events of a run.

    - Part II models the icosphere generator, whose source file is not
      among the sources at hand, from its description in the specification.

    JavaScript numbers are modelled by [Z] where the program only ever holds
    integers (slider values, the frame counter).  The quotients of the
    colour override are IEEE 754 doubles, and the components of the colour
    are the singles that gl-matrix's [vec4.fromValues] stores them as; [Q]
    gives the real values of the floats. *)

From Stdlib Require Import ZArith QArith Qabs String List Lia Reals Lra
  SpecFloat.
From stdpp Require Import base list strings option gmap.

Local Open Scope Z_scope.
Local Open Scope string_scope.
Local Open Scope list_scope.

(* ===================================================================== *)
(** * Part I: the embedding of [main.ts]                                  *)
(* ===================================================================== *)

(** ** Data *)

(** An object reference: the index of the object in the store. *)
Abbreviation ref := nat (only parsing).

(** [vec3.fromValues(x, y, z)] with the integer literals of [main.ts]. *)
Definition vec3 : Type := Z * Z * Z.

(** The three drawable classes, with their constructor arguments. *)
Inductive Geometry :=
| Icosphere (center : vec3) (radius : Z) (subdivisions : Z)
| Square (center : vec3)
| Cube (center : vec3).

(** A drawable object.  [buffers] tells whether the object currently holds
    GPU buffers. *)
Record Drawable := { geometry : Geometry; buffers : bool }.

(** The three shader programs that [main] builds. *)
Inductive ShaderProgram := gradient | lambert | noise.

(** [const controls = {...}]; the entry ['Load Scene': loadScene] is the
    action [ClickLoadScene] below. *)
Record Controls := {
  tesselations : Z;
  shape : string;
  shaderName : string;
  lambertR : Z;
  lambertG : Z;
  lambertB : Z
}.

(** What [gui.add] registers. *)
Inductive Widget :=
| Slider (property : string) (min max step : Z)
| Select (property : string) (options : list string)
| Button (property : string).

(** A number of the program is an IEEE 754 double.  The components of a
    [vec4] of gl-matrix are singles: [vec4.fromValues] returns a
    [Float32Array].  Both are values of [spec_float], the standard
    library's specification of IEEE 754 arithmetic, and differ in the
    precision they are rounded to. *)
Definition vec4 : Type := spec_float * spec_float * spec_float * spec_float.

(** Calls that leave [main.ts]. *)
Inductive Event :=
| EStatsInit
| EGuiAdd (w : Widget)
| EGetContext
| EAlert (msg : string)
| ESetGL (available : bool)
| ENew (o : ref) (g : Geometry)
| ECreate (o : ref)
| EDestroy (o : ref)
| ENewCamera
| ENewRenderer
| ESetClearColor
| EEnableDepthTest
| ENewShaderProgram (p : ShaderProgram)
| EAddResizeListener
| ESetSize
| ESetAspectRatio
| EUpdateProjectionMatrix
| ECameraUpdate
| EStatsBegin
| EViewport
| EClear
| ERender (shader : option ShaderProgram) (drawables : list ref)
          (color : vec4) (frame : Z)
| EStatsEnd
| ERequestAnimationFrame.

(** The module-level state of [main.ts] and the object store. *)
Record World := {
  controls : Controls;
  icosphere : option ref;
  square : option ref;
  cube : option ref;
  prevTesselations : Z;
  time : Z;
  store : list Drawable
}.

(** The page's environment at start-up. *)
Record Host := { canvas_present : bool; webgl2 : bool }.

(** ** The monad *)

Inductive Error := TypeError.

Inductive Result (A : Type) :=
| Ok (a : A)
| Throw (e : Error).
Arguments Ok {A} a.
Arguments Throw {A} e.

(** What running a piece of the program gives: how it ended, the state it
    left, and the external calls it made, in order.  A thrown exception
    keeps the state and the calls made so far. *)
Record Run (A : Type) := {
  outcome : Result A;
  final : World;
  events : list Event
}.
Arguments outcome {A} r.
Arguments final {A} r.
Arguments events {A} r.

Definition M (A : Type) : Type := World -> Run A.

Definition ret {A} (a : A) : M A :=
  fun w => {| outcome := Ok a; final := w; events := [] |}.

Definition bind {A B} (m : M A) (k : A -> M B) : M B :=
  fun w =>
    match m w with
    | {| outcome := Ok a; final := w1; events := t1 |} =>
        match k a w1 with
        | {| outcome := r; final := w2; events := t2 |} =>
            {| outcome := r; final := w2; events := t1 ++ t2 |}
        end
    | {| outcome := Throw e; final := w1; events := t1 |} =>
        {| outcome := Throw e; final := w1; events := t1 |}
    end.

Definition throw {A} (e : Error) : M A :=
  fun w => {| outcome := Throw e; final := w; events := [] |}.

Definition gets {A} (f : World -> A) : M A :=
  fun w => {| outcome := Ok (f w); final := w; events := [] |}.

Definition modify (f : World -> World) : M unit :=
  fun w => {| outcome := Ok tt; final := f w; events := [] |}.

(** An external call: it is recorded and returns. *)
Definition emit (e : Event) : M unit :=
  fun w => {| outcome := Ok tt; final := w; events := [e] |}.

Declare Scope js_scope.
Delimit Scope js_scope with js.
Notation "x <- m ; k" := (bind m (fun x => k))
  (at level 100, m at next level, right associativity) : js_scope.
Notation "m ;; k" := (bind m (fun _ => k))
  (at level 100, right associativity) : js_scope.
Local Open Scope js_scope.

(** ** Assignments to the module-level variables *)

Definition set_controls (c : Controls) (w : World) : World :=
  {| controls := c; icosphere := icosphere w; square := square w;
     cube := cube w; prevTesselations := prevTesselations w;
     time := time w; store := store w |}.

Definition set_icosphere (v : option ref) (w : World) : World :=
  {| controls := controls w; icosphere := v; square := square w;
     cube := cube w; prevTesselations := prevTesselations w;
     time := time w; store := store w |}.

Definition set_square (v : option ref) (w : World) : World :=
  {| controls := controls w; icosphere := icosphere w; square := v;
     cube := cube w; prevTesselations := prevTesselations w;
     time := time w; store := store w |}.

Definition set_cube (v : option ref) (w : World) : World :=
  {| controls := controls w; icosphere := icosphere w; square := square w;
     cube := v; prevTesselations := prevTesselations w;
     time := time w; store := store w |}.

Definition set_prevTesselations (n : Z) (w : World) : World :=
  {| controls := controls w; icosphere := icosphere w; square := square w;
     cube := cube w; prevTesselations := n;
     time := time w; store := store w |}.

Definition set_time (n : Z) (w : World) : World :=
  {| controls := controls w; icosphere := icosphere w; square := square w;
     cube := cube w; prevTesselations := prevTesselations w;
     time := n; store := store w |}.

Definition set_store (s : list Drawable) (w : World) : World :=
  {| controls := controls w; icosphere := icosphere w; square := square w;
     cube := cube w; prevTesselations := prevTesselations w;
     time := time w; store := s |}.

(** ** Calls into the collaborators *)

(** [new C(args)]: a fresh object, which holds no GPU buffers yet. *)
Definition new (g : Geometry) : M ref :=
  o <- gets (fun w => length (store w));
  modify (fun w => set_store (store w ++ [{| geometry := g; buffers := false |}]) w);;
  emit (ENew o g);;
  ret o.

Definition set_buffers (b : bool) (d : Drawable) : Drawable :=
  {| geometry := geometry d; buffers := b |}.

(** Modelled from the spec: [Drawable.create], whose class
    ([rendering/gl/Drawable] and its subclasses in [geometry/]) is missing
    from the sources.  The specification describes it as the build step
    that populates the shape and uploads it to GPU buffers: afterwards the
    shape holds ("has acquired") its buffers. *)
Definition create (o : ref) : M unit :=
  modify (fun w => set_store (alter (set_buffers true) o (store w)) w);;
  emit (ECreate o).

(** Modelled from the spec: [Drawable.destroy], missing likewise.  The
    specification describes it as the release of the shape's GPU
    resources: afterwards the shape holds no buffers. *)
Definition destroy (o : ref) : M unit :=
  modify (fun w => set_store (alter (set_buffers false) o (store w)) w);;
  emit (EDestroy o).

(** A method call [v.m()] on a variable: a [TypeError] when the variable is
    [undefined]. *)
Definition deref (v : option ref) : M ref :=
  match v with
  | Some o => ret o
  | None => throw TypeError
  end.

Definition call (method : ref -> M unit) (v : option ref) : M unit :=
  o <- deref v; method o.

(** ** [loadScene] *)

Definition origin : vec3 := (0, 0, 0).

Definition loadScene : M unit :=
  n <- gets (fun w => tesselations (controls w));
  o <- new (Icosphere origin 1 n);
  modify (set_icosphere (Some o));;
  (v <- gets icosphere; call create v);;
  o <- new (Square origin);
  modify (set_square (Some o));;
  (v <- gets square; call create v);;
  o <- new (Cube origin);
  modify (set_cube (Some o));;
  (v <- gets cube; call create v).

(** ** [tick] *)

(** The double that holds the integer [n] (the nearest one, beyond
    2^53). *)
Definition number_of_Z (n : Z) : spec_float :=
  binary_normalize 53 1024 n 0 false.

(** [x / y] on doubles. *)
Definition number_div (x y : spec_float) : spec_float := SFdiv 53 1024 x y.

(** The store of a double into a [Float32Array]: the nearest single, ties
    to even. *)
Definition to_float32 (x : spec_float) : spec_float :=
  match x with
  | S754_finite s m e => binary_round 24 128 s m e
  | _ => x
  end.

(** [vec4.fromValues(r, g, b, a)]. *)
Definition vec4_fromValues (r g b a : spec_float) : vec4 :=
  (to_float32 r, to_float32 g, to_float32 b, to_float32 a).

(** [vec4.fromValues(controls.lambertR/255.0, controls.lambertG/255.0,
    controls.lambertB/255.0, 1)]. *)
Definition color_override (c : Controls) : vec4 :=
  vec4_fromValues
    (number_div (number_of_Z (lambertR c)) (number_of_Z 255))
    (number_div (number_of_Z (lambertG c)) (number_of_Z 255))
    (number_div (number_of_Z (lambertB c)) (number_of_Z 255))
    (number_of_Z 1).

Arguments color_override : simpl never.

(** [if (controls.tesselations != prevTesselations) { ... }] *)
Definition regenerate : M unit :=
  n <- gets (fun w => tesselations (controls w));
  p <- gets prevTesselations;
  if negb (n =? p)%Z then
    modify (set_prevTesselations n);;
    p <- gets prevTesselations;
    o <- new (Icosphere origin 1 p);
    modify (set_icosphere (Some o));;
    (v <- gets icosphere; call create v)
  else ret tt.

(** [switch(controls.shape) { ... }]: the value of [toDraw] afterwards. *)
Definition select_shape : M (option ref) :=
  s <- gets (fun w => shape (controls w));
  if (s =? "icosphere")%string then
    (v <- gets cube; call destroy v);;
    gets icosphere
  else if (s =? "cube")%string then
    (v <- gets icosphere; call destroy v);;
    gets cube
  else ret None.

(** [switch(controls.shaderName) { ... }]: the value of [shader]
    afterwards. *)
Definition shader_for (s : string) : option ShaderProgram :=
  if (s =? "lambert")%string then Some lambert
  else if (s =? "fixed gradient")%string then Some gradient
  else if (s =? "noise")%string then Some noise
  else None.

Definition select_shader : M (option ShaderProgram) :=
  gets (fun w => shader_for (shaderName (controls w))).

Definition tick : M unit :=
  emit ECameraUpdate;;
  emit EStatsBegin;;
  emit EViewport;;
  emit EClear;;
  regenerate;;
  toDraw <- select_shape;
  shader <- select_shader;
  (* toDraw.create() *)
  o <- deref toDraw;
  create o;;
  c <- gets controls;
  t <- gets time;
  emit (ERender shader [o] (color_override c) t);;
  emit EStatsEnd;;
  modify (fun w => set_time (time w + 1) w);;
  emit ERequestAnimationFrame.

(** ** [main] *)

Definition gui_widgets : list Widget :=
  [ Slider "tesselations" 0 8 1;
    Select "shape" ["icosphere"; "cube"];
    Select "shaderName" ["lambert"; "fixed gradient"; "noise"];
    Slider "lambertR" 0 255 1;
    Slider "lambertG" 0 255 1;
    Slider "lambertB" 0 255 1;
    Button "Load Scene" ].

Fixpoint emit_all (es : list Event) : M unit :=
  match es with
  | [] => ret tt
  | e :: es' => emit e;; emit_all es'
  end.

Definition main (h : Host) : M unit :=
  emit EStatsInit;;
  emit_all (map EGuiAdd gui_widgets);;
  (* canvas.getContext('webgl2') on the element found under 'canvas' *)
  (if canvas_present h then emit EGetContext else throw TypeError);;
  (if negb (webgl2 h) then emit (EAlert "WebGL 2 not supported!") else ret tt);;
  emit (ESetGL (webgl2 h));;
  loadScene;;
  emit ENewCamera;;
  emit ENewRenderer;;
  emit ESetClearColor;;
  (* gl.enable(gl.DEPTH_TEST) *)
  (if webgl2 h then emit EEnableDepthTest else throw TypeError);;
  emit (ENewShaderProgram gradient);;
  emit (ENewShaderProgram lambert);;
  emit (ENewShaderProgram noise);;
  emit EAddResizeListener;;
  emit ESetSize;;
  emit ESetAspectRatio;;
  emit EUpdateProjectionMatrix;;
  tick.

(** The module-level initialisers. *)
Definition initial_controls : Controls :=
  {| tesselations := 5; shape := "icosphere"; shaderName := "lambert";
     lambertR := 200; lambertG := 25; lambertB := 25 |}.

Definition initial_world : World :=
  {| controls := initial_controls;
     icosphere := None; square := None; cube := None;
     prevTesselations := 5; time := 0;
     store := [] |}.

(** ** The frames after [main] *)

(** What the user can do with the GUI between two frames. *)
Inductive GuiAction :=
| SetTesselations (n : Z)
| SetShape (s : string)
| SetShaderName (s : string)
| SetLambertR (n : Z)
| SetLambertG (n : Z)
| SetLambertB (n : Z)
| ClickLoadScene.

Definition write_control (a : GuiAction) (c : Controls) : Controls :=
  match a with
  | SetTesselations n =>
      {| tesselations := n; shape := shape c; shaderName := shaderName c;
         lambertR := lambertR c; lambertG := lambertG c; lambertB := lambertB c |}
  | SetShape s =>
      {| tesselations := tesselations c; shape := s; shaderName := shaderName c;
         lambertR := lambertR c; lambertG := lambertG c; lambertB := lambertB c |}
  | SetShaderName s =>
      {| tesselations := tesselations c; shape := shape c; shaderName := s;
         lambertR := lambertR c; lambertG := lambertG c; lambertB := lambertB c |}
  | SetLambertR n =>
      {| tesselations := tesselations c; shape := shape c; shaderName := shaderName c;
         lambertR := n; lambertG := lambertG c; lambertB := lambertB c |}
  | SetLambertG n =>
      {| tesselations := tesselations c; shape := shape c; shaderName := shaderName c;
         lambertR := lambertR c; lambertG := n; lambertB := lambertB c |}
  | SetLambertB n =>
      {| tesselations := tesselations c; shape := shape c; shaderName := shaderName c;
         lambertR := lambertR c; lambertG := lambertG c; lambertB := n |}
  | ClickLoadScene => c
  end.

Definition gui_action (a : GuiAction) : M unit :=
  match a with
  | ClickLoadScene => loadScene
  | _ => modify (fun w => set_controls (write_control a (controls w)) w)
  end.

Fixpoint gui_actions (acts : list GuiAction) : M unit :=
  match acts with
  | [] => ret tt
  | a :: acts' => gui_action a;; gui_actions acts'
  end.

(** Each [requestAnimationFrame(tick)] makes the host call [tick] once more,
    after the GUI actions that happened in between.  A [tick] that throws
    does not reach [requestAnimationFrame]: the loop ends. *)
Fixpoint frames (inputs : list (list GuiAction)) : M unit :=
  match inputs with
  | [] => ret tt
  | acts :: rest => gui_actions acts;; tick;; frames rest
  end.

Definition program (h : Host) (inputs : list (list GuiAction)) : M unit :=
  main h;; frames inputs.

(** ** Observations on the events of a run *)

(** A regeneration of the icosphere is a [new Icosphere(...)]. *)
Definition is_regeneration (e : Event) : bool :=
  match e with
  | ENew _ (Icosphere _ _ _) => true
  | _ => false
  end.

Definition regenerations (t : list Event) : nat :=
  length (List.filter is_regeneration t).

(** The calls of [renderer.render].  The renderer draws every drawable of
    the list it is given, so a frame draws exactly when [render] is
    called. *)
Definition is_render (e : Event) : bool :=
  match e with
  | ERender _ _ _ _ => true
  | _ => false
  end.

Definition renders (t : list Event) : list Event := List.filter is_render t.

(** The frame counters handed to the renderer, in order. *)
Fixpoint render_frames (t : list Event) : list Z :=
  match t with
  | [] => []
  | ERender _ _ _ n :: t' => n :: render_frames t'
  | _ :: t' => render_frames t'
  end.

(** The alerts shown to the user, in order. *)
Fixpoint alerts (t : list Event) : list string :=
  match t with
  | [] => []
  | EAlert msg :: t' => msg :: alerts t'
  | _ :: t' => alerts t'
  end.

(** The widgets registered with the GUI, in order. *)
Fixpoint registered_widgets (t : list Event) : list Widget :=
  match t with
  | [] => []
  | EGuiAdd w :: t' => w :: registered_widgets t'
  | _ :: t' => registered_widgets t'
  end.

Definition is_get_context (e : Event) : bool :=
  match e with
  | EGetContext => true
  | _ => false
  end.

(** The values the two [switch] statements know. *)
Definition recognized_shape (s : string) : bool :=
  (s =? "icosphere")%string || (s =? "cube")%string.

Definition recognized_shader (s : string) : bool :=
  (s =? "lambert")%string || (s =? "fixed gradient")%string
  || (s =? "noise")%string.

(** [loadScene] has run: the variables [icosphere] and [cube] hold two
    different objects of the store. *)
Definition loaded (w : World) : bool :=
  match icosphere w, cube w with
  | Some i, Some c =>
      negb (i =? c)%nat && (i <? length (store w))%nat
      && (c <? length (store w))%nat
  | _, _ => false
  end.

(** Whether object [o] holds GPU buffers, and how many objects do. *)
Definition held (st : list Drawable) (o : ref) : bool :=
  match st !! o with
  | Some d => buffers d
  | None => false
  end.

Definition holds_buffers (w : World) (o : ref) : bool := held (store w) o.

Definition held_count (st : list Drawable) : nat :=
  length (List.filter buffers st).

Definition gpu_count (w : World) : nat := held_count (store w).

(** The drawable the shape selector designates. *)
Definition selected (w : World) : option ref :=
  if (shape (controls w) =? "icosphere")%string then icosphere w
  else if (shape (controls w) =? "cube")%string then cube w
  else None.

Definition deselected (w : World) : option ref :=
  if (shape (controls w) =? "icosphere")%string then cube w
  else if (shape (controls w) =? "cube")%string then icosphere w
  else None.


(** The real number that a float stands for, if it is finite. *)
Definition float_value (x : spec_float) : option Q :=
  match x with
  | S754_zero _ => Some 0%Q
  | S754_finite s m e =>
      Some ((if s then -1 else 1) * inject_Z (Zpos m) * Qpower 2 e)%Q
  | _ => None
  end.

(** The float [x] stands for the rational [q]. *)
Definition exactly (x : spec_float) (q : Q) : bool :=
  match float_value x with
  | Some v => Qeq_bool v q
  | None => false
  end.

(** The float [x] is finite and at most [eps] away from [q]. *)
Definition within (eps : Q) (x : spec_float) (q : Q) : bool :=
  match float_value x with
  | Some v => Qle_bool (Qabs (v - q)) eps
  | None => false
  end.

(** Modelled from the spec: the colour in the words of claim C10, the
    quotients lambertR/255, lambertG/255 and lambertB/255 and 1. *)
Definition quotient_color (c : Controls) : Q * Q * Q * Q :=
  ((inject_Z (lambertR c) / 255)%Q,
   (inject_Z (lambertG c) / 255)%Q,
   (inject_Z (lambertB c) / 255)%Q,
   1%Q).

(** The colour [v] is, component by component, the colour [q]. *)
Definition same_color (v : vec4) (q : Q * Q * Q * Q) : bool :=
  match v, q with
  | (r, g, b, a), (qr, qg, qb, qa) =>
      exactly r qr && exactly g qg && exactly b qb && exactly a qa
  end.

(** The values of a slider from 0 to 255 with step 1. *)
Definition slider_values : list Z := map Z.of_nat (seq 0 256).

(** ** Classes of GUI actions *)

(** Actions that neither move the tessellation control away from [n] nor
    rebuild the scene. *)
Definition keeps_tesselations (n : Z) (a : GuiAction) : bool :=
  match a with
  | SetTesselations m => (m =? n)%Z
  | ClickLoadScene => false
  | _ => true
  end.



(** What the registered widgets let the user enter: a slider yields a
    multiple of its step within its range, a selector one of its options, a
    button a click. *)
Definition slider_allows (property : string) (n : Z) : bool :=
  existsb (fun w => match w with
                    | Slider p lo hi st =>
                        (p =? property)%string && (lo <=? n)%Z && (n <=? hi)%Z
                        && ((n - lo) mod st =? 0)%Z
                    | _ => false
                    end) gui_widgets.

Definition select_allows (property : string) (s : string) : bool :=
  existsb (fun w => match w with
                    | Select p options =>
                        (p =? property)%string && existsb (String.eqb s) options
                    | _ => false
                    end) gui_widgets.

Definition button_allows (property : string) : bool :=
  existsb (fun w => match w with
                    | Button p => (p =? property)%string
                    | _ => false
                    end) gui_widgets.

Definition allowed (a : GuiAction) : bool :=
  match a with
  | SetTesselations n => slider_allows "tesselations" n
  | SetShape s => select_allows "shape" s
  | SetShaderName s => select_allows "shaderName" s
  | SetLambertR n => slider_allows "lambertR" n
  | SetLambertG n => slider_allows "lambertG" n
  | SetLambertB n => slider_allows "lambertB" n
  | ClickLoadScene => button_allows "Load Scene"
  end.

Definition is_slider (w : Widget) : bool :=
  match w with
  | Slider _ _ _ _ => true
  | _ => false
  end.

Definition is_select (w : Widget) : bool :=
  match w with
  | Select _ _ => true
  | _ => false
  end.

(** ** Two reference points *)

(** A page with a canvas and WebGL 2. *)
Definition working_host : Host := {| canvas_present := true; webgl2 := true |}.

(** The state in which [main] leaves the program on such a page, that is,
    after the first frame. *)
Definition loaded_world : World :=
  Eval vm_compute in final (main working_host initial_world).

(** The calls that [main] makes on the way. *)
Definition startup_events : list Event :=
  Eval vm_compute in events (main working_host initial_world).

(** ** States of the frame loop *)



(** ** The page's other callbacks *)

(** The listener that [main] registers for 'resize'. *)
Definition on_resize : M unit :=
  emit ESetSize;;
  emit ESetAspectRatio;;
  emit EUpdateProjectionMatrix.

(** What reaches the page between two animation frames. *)
Inductive HostEvent :=
| Gui (a : GuiAction)
| Resize.

Definition host_event (e : HostEvent) : M unit :=
  match e with
  | Gui a => gui_action a
  | Resize => on_resize
  end.

Fixpoint host_events (es : list HostEvent) : M unit :=
  match es with
  | [] => ret tt
  | e :: es' => host_event e;; host_events es'
  end.

Definition is_request (e : Event) : bool :=
  match e with
  | ERequestAnimationFrame => true
  | _ => false
  end.

(** One animation frame as the host runs it: it calls [tick]; an exception
    of the callback is reported by the host and goes no further; the frame
    is followed by another one exactly when [tick] has called
    [requestAnimationFrame(tick)]. *)
Definition animation_frame : M bool :=
  fun w =>
    let r := tick w in
    {| outcome := Ok (existsb is_request (events r));
       final := final r;
       events := events r |}.

(** The life of the page after [main]: in each round the host serves the
    events that came in and then, if a frame was asked for, runs it.  GUI
    and resize events are served whether or not the frame loop is still
    running. *)
Fixpoint session (armed : bool) (rounds : list (list HostEvent)) : M unit :=
  match rounds with
  | [] => ret tt
  | es :: rest =>
      host_events es;;
      if armed then (again <- animation_frame; session again rest)
      else session false rest
  end.

(** ** Further observations *)

Definition count_events (f : Event -> bool) (t : list Event) : nat :=
  length (List.filter f t).

Definition is_tick_start (e : Event) : bool :=
  match e with
  | ECameraUpdate => true
  | _ => false
  end.

Definition is_stats_begin (e : Event) : bool :=
  match e with
  | EStatsBegin => true
  | _ => false
  end.

Definition is_stats_end (e : Event) : bool :=
  match e with
  | EStatsEnd => true
  | _ => false
  end.

Definition is_destroy (e : Event) : bool :=
  match e with
  | EDestroy _ => true
  | _ => false
  end.

(** The calls that build, upload or release a shape. *)
Definition is_scene_call (e : Event) : bool :=
  match e with
  | ENew _ _ | ECreate _ | EDestroy _ => true
  | _ => false
  end.

(** Whether every call of [render] in [t] finds the projection matrix up to
    date, when [stale] tells whether the aspect ratio was set since the
    matrix was last recomputed. *)
Fixpoint projection_fresh (stale : bool) (t : list Event) : bool :=
  match t with
  | [] => true
  | ESetAspectRatio :: t' => projection_fresh true t'
  | EUpdateProjectionMatrix :: t' => projection_fresh false t'
  | ERender _ _ _ _ :: t' => negb stale && projection_fresh stale t'
  | _ :: t' => projection_fresh stale t'
  end.

(** Whether the aspect ratio is newer than the projection matrix after
    [t]. *)
Fixpoint projection_stale (stale : bool) (t : list Event) : bool :=
  match t with
  | [] => stale
  | ESetAspectRatio :: t' => projection_stale true t'
  | EUpdateProjectionMatrix :: t' => projection_stale false t'
  | _ :: t' => projection_stale stale t'
  end.

(** The class and constructor arguments of object [o]. *)
Definition geometry_at (st : list Drawable) (o : ref) : option Geometry :=
  match st !! o with
  | Some d => Some (geometry d)
  | None => None
  end.

Definition is_icosphere (g : Geometry) : bool :=
  match g with
  | Icosphere _ _ _ => true
  | _ => false
  end.

Definition is_square (g : Geometry) : bool :=
  match g with
  | Square _ => true
  | _ => false
  end.

Definition is_cube (g : Geometry) : bool :=
  match g with
  | Cube _ => true
  | _ => false
  end.

(** The declared types of the variables: [icosphere: Icosphere] and
    [cube: Cube], as far as they are defined. *)
Definition well_typed (w : World) : Prop :=
  (forall i, icosphere w = Some i ->
             exists g, geometry_at (store w) i = Some g /\ is_icosphere g = true) /\
  (forall c, cube w = Some c ->
             exists g, geometry_at (store w) c = Some g /\ is_cube g = true).

(** The object behind the variable [icosphere]. *)
Definition icosphere_geometry (w : World) : option Geometry :=
  match icosphere w with
  | Some i => geometry_at (store w) i
  | None => None
  end.

(** Every object of [st] is still there in [st'], with the same class and
    arguments. *)
Definition persists (st st' : list Drawable) : Prop :=
  forall o g, geometry_at st o = Some g -> geometry_at st' o = Some g.

Definition is_set_tesselations (a : GuiAction) : bool :=
  match a with
  | SetTesselations _ => true
  | _ => false
  end.

(** GUI actions of one round in which the tessellation slider is not moved
    after a click on 'Load Scene'. *)
Fixpoint slider_before_load (acts : list GuiAction) : bool :=
  match acts with
  | [] => true
  | ClickLoadScene :: acts' =>
      forallb (fun a => negb (is_set_tesselations a)) acts'
  | _ :: acts' => slider_before_load acts'
  end.

(** The ranges of the sliders. *)
Definition in_slider_ranges (c : Controls) : bool :=
  (0 <=? tesselations c)%Z && (tesselations c <=? 8)%Z
  && (0 <=? lambertR c)%Z && (lambertR c <=? 255)%Z
  && (0 <=? lambertG c)%Z && (lambertG c <=? 255)%Z
  && (0 <=? lambertB c)%Z && (lambertB c <=? 255)%Z.

(** The GUI actions among the events of a session, in order. *)
Fixpoint gui_actions_of (es : list HostEvent) : list GuiAction :=
  match es with
  | [] => []
  | Gui a :: es' => a :: gui_actions_of es'
  | Resize :: es' => gui_actions_of es'
  end.

(** Event [e] neither draws nor releases a square: a call of [render]
    draws one object, which is not a square, and a call of [destroy] is on an
    object that is not a square.  [st] is the store in which the references
    are read. *)
Definition avoids_squares (st : list Drawable) (e : Event) : Prop :=
  match e with
  | ERender _ ds _ _ =>
      exists o g, ds = [o] /\ geometry_at st o = Some g /\ is_square g = false
  | EDestroy o =>
      exists g, geometry_at st o = Some g /\ is_square g = false
  | _ => True
  end.

(** A colour component the shaders can show as it is. *)
Definition in_unit_interval (x : spec_float) : bool :=
  match float_value x with
  | Some v => Qle_bool 0 v && Qle_bool v 1
  | None => false
  end.

(** A call of [render] with a shader program (not [undefined]) and an
    opaque colour with components in [0, 1]. *)
Definition render_nominal (e : Event) : bool :=
  match e with
  | ERender sh _ (r, g, b, a) _ =>
      match sh with Some _ => true | None => false end
      && in_unit_interval r && in_unit_interval g && in_unit_interval b
      && exactly a 1
  | _ => true
  end.

(** Controls that the widgets of the GUI can show: both selectors on one
    of their options, every slider within its range. *)
Definition nominal_controls (c : Controls) : bool :=
  recognized_shape (shape c) && recognized_shader (shaderName c)
  && in_slider_ranges c.

(** The variable [square] is bound to a [Square] at the origin that
    holds its buffers. *)
Definition square_uploaded (w : World) : Prop :=
  exists s, square w = Some s /\
            geometry_at (store w) s = Some (Square origin) /\
            holds_buffers w s = true.

(** No event of kind [g] occurs in [t] before the first event of kind
    [f]. *)
Fixpoint precedes (f g : Event -> bool) (t : list Event) : bool :=
  match t with
  | [] => true
  | e :: t' => if f e then true else negb (g e) && precedes f g t'
  end.

Definition is_set_gl (e : Event) : bool :=
  match e with ESetGL _ => true | _ => false end.

Definition is_create (e : Event) : bool :=
  match e with ECreate _ => true | _ => false end.

Definition is_depth_test (e : Event) : bool :=
  match e with EEnableDepthTest => true | _ => false end.

Definition is_resize_listener (e : Event) : bool :=
  match e with EAddResizeListener => true | _ => false end.

(** The construction of shader program [p]. *)
Definition is_new_shader (p : ShaderProgram) (e : Event) : bool :=
  match e, p with
  | ENewShaderProgram gradient, gradient
  | ENewShaderProgram lambert, lambert
  | ENewShaderProgram noise, noise => true
  | _, _ => false
  end.

(* ===================================================================== *)
(** * Part II: the icosphere generator                                    *)
(* ===================================================================== *)

(** The class [geometry/Icosphere] is missing from the sources.  This part
    models its build step from the description in the specification:
    - it starts from the 12 vertices and 20 faces of a regular icosahedron
      in the canonical golden-ratio coordinates, normalized to unit length;
    - each of the L passes replaces every triangle (a, b, c) by the four
      triangles (a, mAB, mCA), (b, mBC, mAB), (c, mCA, mBC) and
      (mAB, mBC, mCA), where mAB is the midpoint of the edge a-b normalized
      to unit length; the midpoint of an edge is computed once and found
      again through a cache keyed by the unordered pair of the indices of
      its end points, that is by (min, max);
    - at the end every position is scaled by the radius and moved by the
      centre, and the normal of a vertex is its direction on the unit
      sphere.
    Positions are real numbers here, not floating-point numbers. *)

(** A triangle: three indices into the list of vertices. *)
Definition Face : Type := nat * nat * nat.

(** ** The subdivision, for any type of vertices *)

Section Generator.
Context {V : Type}.
Variable normalized_midpoint : V -> V -> V.
Variable default : V.

Record Mesh := { vertices : list V; faces : list Face }.

(** The state of one pass: the vertices so far and the midpoint cache. *)
Record Pass := { verts : list V; cache : gmap (nat * nat) nat }.

Definition edge_key (a b : nat) : nat * nat := (Nat.min a b, Nat.max a b).

(** Modelled from the spec: the cached midpoint of [Icosphere]'s build
    step.  The index of the normalized midpoint of the edge a-b: the one in
    the cache under (min, max) of the two indices if there is one, and
    otherwise a new vertex, which is appended and entered in the cache. *)
Definition midpoint_index (a b : nat) (s : Pass) : nat * Pass :=
  match cache s !! edge_key a b with
  | Some i => (i, s)
  | None =>
      let i := length (verts s) in
      (i, {| verts := verts s ++
               [normalized_midpoint (nth a (verts s) default)
                                    (nth b (verts s) default)];
             cache := <[edge_key a b := i]> (cache s) |})
  end.

(** Modelled from the spec: the replacement of one triangle by four in
    [Icosphere]'s build step. *)
Definition split_face (f : Face) (s : Pass) : list Face * Pass :=
  let '(a, b, c) := f in
  let (mab, s1) := midpoint_index a b s in
  let (mbc, s2) := midpoint_index b c s1 in
  let (mca, s3) := midpoint_index c a s2 in
  ([(a, mab, mca); (b, mbc, mab); (c, mca, mbc); (mab, mbc, mca)], s3).

Fixpoint split_faces (fs : list Face) (s : Pass) : list Face * Pass :=
  match fs with
  | [] => ([], s)
  | f :: fs' =>
      let (new, s1) := split_face f s in
      let (rest, s2) := split_faces fs' s1 in
      (new ++ rest, s2)
  end.

(** Modelled from the spec: one subdivision pass of [Icosphere]'s build
    step, over all current triangles; the cache lives for the pass. *)
Definition subdivide (m : Mesh) : Mesh :=
  let (fs, s) :=
    split_faces (faces m) {| verts := vertices m; cache := ∅ |} in
  {| vertices := verts s; faces := fs |}.

Fixpoint subdivide_times (L : nat) (m : Mesh) : Mesh :=
  match L with
  | O => m
  | S L' => subdivide_times L' (subdivide m)
  end.
End Generator.

Arguments vertices {V} m.
Arguments faces {V} m.

(** ** Vectors *)

Local Open Scope R_scope.

Definition vec : Type := R * R * R.

Definition vzero : vec := (0, 0, 0).

Definition vadd (u v : vec) : vec :=
  let '(ux, uy, uz) := u in
  let '(vx, vy, vz) := v in
  (ux + vx, uy + vy, uz + vz).

Definition vsub (u v : vec) : vec :=
  let '(ux, uy, uz) := u in
  let '(vx, vy, vz) := v in
  (ux - vx, uy - vy, uz - vz).

Definition vscale (k : R) (u : vec) : vec :=
  let '(ux, uy, uz) := u in (k * ux, k * uy, k * uz).

Definition vdot (u v : vec) : R :=
  let '(ux, uy, uz) := u in
  let '(vx, vy, vz) := v in
  ux * vx + uy * vy + uz * vz.

Definition vnorm (u : vec) : R := sqrt (vdot u u).

Definition distance (u v : vec) : R := vnorm (vsub u v).

Definition normalize (u : vec) : vec := vscale (/ vnorm u) u.

Definition midpoint (u v : vec) : vec := vscale (1 / 2) (vadd u v).

Definition normalized_midpoint (u v : vec) : vec := normalize (midpoint u v).

(** ** The icosahedron and the icosphere *)

Definition golden : R := (1 + sqrt 5) / 2.

(** Modelled from the spec: the 12 vertices of [Icosphere]'s base
    icosahedron, the canonical golden-ratio coordinates normalized to unit
    length. *)
Definition icosahedron_vertices : list vec :=
  map normalize
    [ (-1, golden, 0); (1, golden, 0); (-1, - golden, 0); (1, - golden, 0);
      (0, -1, golden); (0, 1, golden); (0, -1, - golden); (0, 1, - golden);
      (golden, 0, -1); (golden, 0, 1); (- golden, 0, -1); (- golden, 0, 1) ].

(** Modelled from the spec: the 20 faces of [Icosphere]'s base
    icosahedron.  The specification does not list the index triples; these
    are the ones that go with the canonical coordinates above. *)
Definition icosahedron_faces : list Face :=
  [ (0, 11, 5); (0, 5, 1); (0, 1, 7); (0, 7, 10); (0, 10, 11);
    (1, 5, 9); (5, 11, 4); (11, 10, 2); (10, 7, 6); (7, 1, 8);
    (3, 9, 4); (3, 4, 2); (3, 2, 6); (3, 6, 8); (3, 8, 9);
    (4, 9, 5); (2, 4, 11); (6, 2, 10); (8, 6, 7); (9, 8, 1) ]%nat.

Definition icosahedron : Mesh :=
  {| vertices := icosahedron_vertices; faces := icosahedron_faces |}.

(** The icosphere on the unit sphere, after [L] passes. *)
Definition unit_icosphere (L : nat) : Mesh :=
  subdivide_times normalized_midpoint vzero L icosahedron.

(** What the build step leaves in the shape. *)
Record IcosphereMesh := {
  positions : list vec;
  normals : list vec;
  indices : list Face
}.

(** Modelled from the spec: [Icosphere]'s build step as a whole, for
    centre, radius and subdivision level. *)
Definition build_icosphere (center : vec) (radius : R) (L : nat)
  : IcosphereMesh :=
  let m := unit_icosphere L in
  {| positions := map (fun v => vadd (vscale radius v) center) (vertices m);
     normals := vertices m;
     indices := faces m |}.

(** The mesh of a [new Icosphere(center, radius, subdivisions)]. *)
Definition icosphere_mesh (center : vec3) (radius subdivisions : Z)
  : IcosphereMesh :=
  let '(x, y, z) := center in
  build_icosphere (IZR x, IZR y, IZR z) (IZR radius) (Z.to_nat subdivisions).

(** ** Invariants of the subdivision *)

Definition is_unit (u : vec) : Prop := vdot u u = 1.

(** Two directions less than a right angle apart. *)
Definition acute (u v : vec) : Prop := 0 < vdot u v.

(** [vs'] is [vs] with further vertices appended. *)
Definition extends (vs vs' : list vec) : Prop := exists ex, vs' = vs ++ ex.

(** A face whose corners exist and are pairwise less than a right angle
    apart, so that no edge joins two opposite points. *)
Definition triangle_ok (vs : list vec) (f : Face) : Prop :=
  let '(a, b, c) := f in
  (a < length vs)%nat /\ (b < length vs)%nat /\ (c < length vs)%nat /\
  acute (nth a vs vzero) (nth b vs vzero) /\
  acute (nth b vs vzero) (nth c vs vzero) /\
  acute (nth c vs vzero) (nth a vs vzero).

Definition mesh_ok (m : Mesh) : Prop :=
  Forall is_unit (vertices m) /\ Forall (triangle_ok (vertices m)) (faces m).

(** The state of a pass over a mesh whose vertices are [old]: the old
    vertices come first, all vertices lie on the unit sphere, and the cache
    sends a pair of old vertices to their normalized midpoint. *)
Record pass_ok (old : list vec) (s : Pass) : Prop := {
  pass_extends : extends old (verts s);
  pass_units : Forall is_unit (verts s);
  pass_cache : forall i j k,
    cache s !! (i, j) = Some k ->
    (k < length (verts s))%nat /\
    nth k (verts s) vzero =
      normalized_midpoint (nth i old vzero) (nth j old vzero)
}.

Local Close Scope R_scope.

(* ===================================================================== *)
(** * Properties of [main.ts]                                             *)
(* ===================================================================== *)

(** ** Running programs symbolically *)

Lemma bind_ok {A B} (m : M A) (k : A -> M B) w a :
  outcome (m w) = Ok a ->
  bind m k w =
    {| outcome := outcome (k a (final (m w)));
       final := final (k a (final (m w)));
       events := events (m w) ++ events (k a (final (m w))) |}.
Proof.
  unfold bind. destruct (m w) as [r w1 t1]; simpl. intros ->.
  now destruct (k a w1).
Qed.

Lemma bind_throw {A B} (m : M A) (k : A -> M B) w e :
  outcome (m w) = Throw e ->
  bind m k w =
    {| outcome := Throw e; final := final (m w); events := events (m w) |}.
Proof.
  unfold bind. destruct (m w) as [r w1 t1]; simpl. now intros ->.
Qed.

Lemma regenerations_app t1 t2 :
  regenerations (t1 ++ t2) = (regenerations t1 + regenerations t2)%nat.
Proof. unfold regenerations. now rewrite List.filter_app, length_app. Qed.

Lemma renders_app t1 t2 : renders (t1 ++ t2) = renders t1 ++ renders t2.
Proof. apply List.filter_app. Qed.

Lemma render_frames_app t1 t2 :
  render_frames (t1 ++ t2) = render_frames t1 ++ render_frames t2.
Proof.
  induction t1 as [|e t1 IH]; simpl; [reflexivity|].
  destruct e; simpl; now rewrite ?IH.
Qed.

Lemma alerts_app t1 t2 : alerts (t1 ++ t2) = alerts t1 ++ alerts t2.
Proof.
  induction t1 as [|e t1 IH]; simpl; [reflexivity|].
  destruct e; simpl; now rewrite ?IH.
Qed.

(** Unfolding of the programs down to the monad's primitives. *)
Ltac unfold_js :=
  cbv [tick regenerate select_shape select_shader loadScene call deref
       create destroy new emit modify gets ret bind throw
       set_controls set_icosphere set_square set_cube
       set_prevTesselations set_time set_store
       controls icosphere square cube prevTesselations time store
       tesselations shape shaderName lambertR lambertG lambertB
       outcome final events] in *;
  cbn [app negb] in *.

(** Case analysis on the innermost undecided test of the goal. *)
Ltac split_test :=
  match goal with
  | |- context [if ?b then _ else _] =>
      lazymatch b with
      | context [if _ then _ else _] => fail
      | context [match _ with _ => _ end] => fail
      | _ => destruct b eqn:?
      end
  | |- context [match ?v with Some _ => _ | None => _ end] =>
      lazymatch v with
      | context [if _ then _ else _] => fail
      | _ => destruct v eqn:?
      end
  end.

Ltac run_js := unfold_js; repeat (split_test; unfold_js).

(** Use of the tests already decided in the context. *)
Ltac use_tests :=
  repeat match goal with
         | H : (_ =? _)%string = _ |- _ => rewrite H
         | H : (_ =? _)%Z = _ |- _ => rewrite H
         end.

Ltac settle := repeat (progress (use_tests; rewrite ?Z.eqb_refl; unfold_js)).

(** ** What one [tick] does *)

(** A [tick] builds a new icosphere exactly when the control differs from
    the value rendered last. *)
Lemma tick_regenerations w :
  regenerations (events (tick w)) =
    if (tesselations (controls w) =? prevTesselations w)%Z then 0%nat else 1%nat.
Proof.
  destruct w as [[n sh sn r g b] i s q p t st].
  unfold_js. destruct (n =? p)%Z; run_js; reflexivity.
Qed.

(** Afterwards the value rendered last is the control's value, whether the
    [tick] ran to its end or not. *)
Lemma tick_prevTesselations w :
  prevTesselations (final (tick w)) = tesselations (controls w).
Proof.
  destruct w as [[n sh sn r g b] i s q p t st].
  unfold_js. destruct (n =? p)%Z eqn:E; run_js;
    solve [reflexivity | symmetry; now apply Z.eqb_eq].
Qed.

(** [tick] only reads the controls. *)
Lemma tick_controls w : controls (final (tick w)) = controls w.
Proof.
  destruct w as [[n sh sn r g b] i s q p t st].
  unfold_js. destruct (n =? p)%Z; run_js; reflexivity.
Qed.

(** A [tick] that runs to its end has called the renderer once, with the
    current frame counter, and has then advanced the counter by one. *)
Lemma tick_ok_frame w :
  outcome (tick w) = Ok tt ->
  render_frames (events (tick w)) = [time w] /\
  time (final (tick w)) = time w + 1.
Proof.
  destruct w as [[n sh sn r g b] i s q p t st].
  unfold_js. destruct (n =? p)%Z; run_js; intros H;
    solve [discriminate H | split; reflexivity].
Qed.

(** A [tick] that throws has not called the renderer. *)
Lemma tick_throw_no_render w e :
  outcome (tick w) = Throw e -> renders (events (tick w)) = [].
Proof.
  destruct w as [[n sh sn r g b] i s q p t st].
  unfold_js. destruct (n =? p)%Z; run_js; intros H;
    solve [discriminate H | reflexivity].
Qed.

(** ** GUI actions *)

Lemma loadScene_ok w : outcome (loadScene w) = Ok tt.
Proof. destruct w as [c i s q p t st]. reflexivity. Qed.

Lemma loadScene_time w : time (final (loadScene w)) = time w.
Proof. destruct w as [c i s q p t st]. reflexivity. Qed.

Lemma gui_action_ok a w : outcome (gui_action a w) = Ok tt.
Proof. destruct a; reflexivity. Qed.

Lemma gui_action_time a w : time (final (gui_action a w)) = time w.
Proof. destruct a; reflexivity. Qed.

Lemma gui_action_quiet a w :
  render_frames (events (gui_action a w)) = [] /\
  alerts (events (gui_action a w)) = [].
Proof. destruct a; split; reflexivity. Qed.

Lemma gui_actions_ok acts w : outcome (gui_actions acts w) = Ok tt.
Proof.
  revert w. induction acts as [|a acts IH]; intros w; [reflexivity|].
  simpl. rewrite (bind_ok _ _ _ tt) by apply gui_action_ok. simpl. apply IH.
Qed.

Lemma gui_actions_time acts w : time (final (gui_actions acts w)) = time w.
Proof.
  revert w. induction acts as [|a acts IH]; intros w; [reflexivity|].
  simpl. rewrite (bind_ok _ _ _ tt) by apply gui_action_ok. simpl.
  now rewrite IH, gui_action_time.
Qed.

Lemma gui_actions_quiet acts w :
  render_frames (events (gui_actions acts w)) = [] /\
  alerts (events (gui_actions acts w)) = [].
Proof.
  revert w. induction acts as [|a acts IH]; intros w; [split; reflexivity|].
  simpl. rewrite (bind_ok _ _ _ tt) by apply gui_action_ok. simpl.
  rewrite render_frames_app, alerts_app.
  destruct (gui_action_quiet a w) as [-> ->].
  destruct (IH (final (gui_action a w))) as [-> ->]. split; reflexivity.
Qed.

(** ** The frame loop *)

Lemma frames_cons acts rest w :
  frames (acts :: rest) w =
    let w1 := final (gui_actions acts w) in
    match outcome (tick w1) with
    | Ok _ =>
        {| outcome := outcome (frames rest (final (tick w1)));
           final := final (frames rest (final (tick w1)));
           events := events (gui_actions acts w) ++ events (tick w1)
                     ++ events (frames rest (final (tick w1))) |}
    | Throw e =>
        {| outcome := Throw e; final := final (tick w1);
           events := events (gui_actions acts w) ++ events (tick w1) |}
    end.
Proof.
  simpl. rewrite (bind_ok _ _ _ tt) by apply gui_actions_ok. simpl.
  destruct (outcome (tick (final (gui_actions acts w)))) as [[]|e] eqn:E.
  - now rewrite (bind_ok _ _ _ tt) by exact E.
  - now rewrite (bind_throw _ _ _ e) by exact E.
Qed.

Lemma tick_throw_no_frame w e :
  outcome (tick w) = Throw e -> render_frames (events (tick w)) = [].
Proof.
  destruct w as [[n sh sn r g b] i s q p t st].
  unfold_js. destruct (n =? p)%Z; run_js; intros H;
    solve [discriminate H | reflexivity].
Qed.

(** The counters handed to the renderer by a run of frames that starts with
    the counter at [time w] are [time w], [time w + 1], ... *)
Lemma frames_render_frames inputs : forall w,
  render_frames (events (frames inputs w)) =
    map (fun j => time w + Z.of_nat j)
        (seq 0 (length (render_frames (events (frames inputs w))))).
Proof.
  induction inputs as [|acts rest IH]; intros w; [reflexivity|].
  rewrite frames_cons. cbv zeta.
  pose proof (gui_actions_time acts w) as Ht.
  destruct (gui_actions_quiet acts w) as [Hq _].
  set (w1 := final (gui_actions acts w)) in *.
  destruct (outcome (tick w1)) as [[]|e] eqn:E; cbn [events].
  - destruct (tick_ok_frame w1 E) as [Hf Hn].
    rewrite !render_frames_app, Hq, Hf. cbn [app length seq map].
    rewrite IH at 1. rewrite Hn, Ht, Z.add_0_r. f_equal.
    rewrite <- seq_shift, map_map. apply map_ext. intros j. lia.
  - rewrite render_frames_app, Hq, (tick_throw_no_frame w1 e E). reflexivity.
Qed.

(** ** [main] *)

Ltac unfold_main :=
  cbv [main emit_all gui_widgets map]; unfold_js.

Lemma main_frames h w :
  match outcome (main h w) with
  | Ok _ =>
      render_frames (events (main h w)) = [time w] /\
      time (final (main h w)) = time w + 1
  | Throw _ => render_frames (events (main h w)) = []
  end.
Proof.
  destruct w as [[n sh sn r g b] i s q p t st], h as [[] []];
    unfold_main; try reflexivity;
    destruct (n =? p)%Z; run_js; solve [reflexivity | split; reflexivity].
Qed.

(** ** The object store *)

Lemma held_alter_eq b o (st : list Drawable) :
  (o < length st)%nat -> held (alter (set_buffers b) o st) o = b.
Proof.
  intros Ho. unfold held. rewrite list_lookup_alter_eq.
  destruct (lookup_lt_is_Some_2 st o Ho) as [d ->]. reflexivity.
Qed.

Lemma held_alter_ne (f : Drawable -> Drawable) o o' (st : list Drawable) :
  o <> o' -> held (alter f o st) o' = held st o'.
Proof. intros Hne. unfold held. now rewrite list_lookup_alter_ne. Qed.

Lemma held_snoc (st : list Drawable) d o :
  (o < length st)%nat -> held (st ++ [d]) o = held st o.
Proof. intros Ho. unfold held. now rewrite lookup_app_l. Qed.



Lemma loaded_inv w :
  loaded w = true ->
  exists i c, icosphere w = Some i /\ cube w = Some c /\ i <> c /\
              (i < length (store w))%nat /\ (c < length (store w))%nat.
Proof.
  unfold loaded. destruct (icosphere w) as [i|]; [|discriminate].
  destruct (cube w) as [c|]; [|discriminate].
  rewrite !andb_true_iff, negb_true_iff, Nat.eqb_neq, !Nat.ltb_lt.
  intros [[H1 H2] H3]. now exists i, c.
Qed.

Lemma loaded_intro w i c :
  icosphere w = Some i -> cube w = Some c -> i <> c ->
  (i < length (store w))%nat -> (c < length (store w))%nat ->
  loaded w = true.
Proof.
  unfold loaded. intros -> -> H1 H2 H3.
  rewrite !andb_true_iff, negb_true_iff, Nat.eqb_neq, !Nat.ltb_lt. auto.
Qed.

(** ** A [tick] once the scene is loaded *)

Lemma recognized_shape_cases s :
  recognized_shape s = true ->
  ((s =? "icosphere") = true) \/
  ((s =? "icosphere") = false /\ (s =? "cube") = true).
Proof.
  unfold recognized_shape.
  destruct (s =? "icosphere"); [now left|]. simpl. intros ->. now right.
Qed.

(** Rewriting of [held], [held_count] and [length] over the updates that a
    [tick] applies to the store. *)
Ltac store_side := rewrite ?length_alter, ?length_app; simpl; lia.

Ltac store_simpl :=
  repeat first
    [ rewrite length_alter
    | rewrite length_app
    | rewrite held_alter_eq by store_side
    | rewrite held_alter_ne by lia
    | rewrite held_snoc by store_side ].

(** Entering a [tick] with the scene loaded and a shape the switch knows. *)
Ltac enter_tick w Hl Hr :=
  let i := fresh "i" in
  let c := fresh "c" in
  let Hi := fresh "Hi" in
  let Hc := fresh "Hc" in
  let Hne := fresh "Hne" in
  let Hli := fresh "Hli" in
  let Hlc := fresh "Hlc" in
  destruct (loaded_inv _ Hl) as (i & c & Hi & Hc & Hne & Hli & Hlc);
  destruct w as [[n sh sn r g b] vi vs vc p t st];
  simpl in Hi, Hc, Hli, Hlc, Hr; subst vi vc;
  unfold selected, deselected, holds_buffers, gpu_count;
  unfold_js;
  destruct (recognized_shape_cases _ Hr) as [E1|[E1 E2]];
  rewrite ?E1, ?E2; unfold_js.

Lemma tick_settles w :
  loaded w = true ->
  recognized_shape (shape (controls w)) = true ->
  outcome (tick w) = Ok tt /\
  loaded (final (tick w)) = true /\
  exists o o',
    selected (final (tick w)) = Some o /\
    deselected (final (tick w)) = Some o' /\
    holds_buffers (final (tick w)) o = true /\
    holds_buffers (final (tick w)) o' = false.
Proof.
  intros Hl Hr. enter_tick w Hl Hr;
    (destruct (n =? p)%Z eqn:En; unfold_js; rewrite ?E1, ?E2;
     (split; [reflexivity|]);
     (split;
      [ eapply loaded_intro; simpl; try reflexivity; store_simpl; simpl; lia
      | do 2 eexists; rewrite ?E1, ?E2; repeat split; try reflexivity;
        store_simpl; try reflexivity ])).
Qed.

(** The renderer is handed the drawable that the shape selector designates,
    the shader that the shader selector designates, the colour of the
    controls and the frame counter. *)
Lemma tick_draws_selected w :
  loaded w = true ->
  recognized_shape (shape (controls w)) = true ->
  exists o,
    selected (final (tick w)) = Some o /\
    renders (events (tick w)) =
      [ERender (shader_for (shaderName (controls w))) [o]
               (color_override (controls w)) (time w)].
Proof.
  intros Hl Hr. enter_tick w Hl Hr;
    (destruct (n =? p)%Z eqn:En; unfold_js;
     eexists; rewrite ?E1, ?E2; unfold_js; rewrite ?E1, ?E2;
     split; reflexivity).
Qed.

(** ** GUI actions that leave the tessellation alone *)

Lemma keeps_tesselations_action n a w :
  keeps_tesselations n a = true ->
  tesselations (controls w) = n ->
  let w' := final (gui_action a w) in
  tesselations (controls w') = n /\
  prevTesselations w' = prevTesselations w /\
  store w' = store w /\ icosphere w' = icosphere w /\ cube w' = cube w /\
  events (gui_action a w) = [].
Proof.
  destruct a; simpl; intros H Hn; try discriminate H;
    repeat split; try assumption. now apply Z.eqb_eq.
Qed.

Lemma keeps_tesselations_actions n acts : forall w,
  forallb (keeps_tesselations n) acts = true ->
  tesselations (controls w) = n ->
  let w' := final (gui_actions acts w) in
  tesselations (controls w') = n /\
  prevTesselations w' = prevTesselations w /\
  store w' = store w /\ icosphere w' = icosphere w /\ cube w' = cube w /\
  events (gui_actions acts w) = [].
Proof.
  induction acts as [|a acts IH]; intros w H Hn; [now repeat split|].
  simpl in H. apply andb_true_iff in H as [Ha Hacts].
  destruct (keeps_tesselations_action n a w Ha Hn)
    as (H1 & H2 & H3 & H4 & H5 & H6).
  destruct (IH (final (gui_action a w)) Hacts H1)
    as (G1 & G2 & G3 & G4 & G5 & G6).
  simpl. rewrite (bind_ok _ _ _ tt) by apply gui_action_ok. simpl.
  rewrite G1, G2, G3, G4, G5, G6, H2, H3, H4, H5, H6. now repeat split.
Qed.

Lemma frames_no_regeneration n rest : forall w,
  forallb (forallb (keeps_tesselations n)) rest = true ->
  tesselations (controls w) = n ->
  prevTesselations w = n ->
  regenerations (events (frames rest w)) = 0%nat.
Proof.
  induction rest as [|acts rest IH]; intros w H Hn Hp; [reflexivity|].
  simpl in H. apply andb_true_iff in H as [Hacts Hrest].
  destruct (keeps_tesselations_actions n acts w Hacts Hn)
    as (H1 & H2 & _ & _ & _ & H6).
  rewrite frames_cons. cbv zeta.
  set (w1 := final (gui_actions acts w)) in *.
  assert (Ht : regenerations (events (tick w1)) = 0%nat).
  { rewrite tick_regenerations, H1, H2, Hp. now rewrite Z.eqb_refl. }
  destruct (outcome (tick w1)) as [[]|e]; cbn [events];
    rewrite H6, ?regenerations_app, Ht; [|reflexivity].
  apply IH; [assumption| |].
  - now rewrite tick_controls.
  - now rewrite tick_prevTesselations.
Qed.

(** ** C2 *)

(** Claim C2.  Let the tessellation control be set to a value [v] that
    differs from the value rendered last.  Then the next [tick] builds
    exactly one new icosphere and records [v] as the value rendered last,
    and however many frames follow in which the control keeps the value
    [v], the whole run still contains exactly that one regeneration: none
    of the later ticks regenerates.  More generally, a [tick] entered with
    the control equal to the value rendered last never regenerates,
    whatever happened before. *)
Theorem tessellation_change_regenerates_once w v rest :
  v <> prevTesselations w ->
  forallb (forallb (keeps_tesselations v)) rest = true ->
  regenerations (events (frames [[SetTesselations v]] w)) = 1%nat /\
  prevTesselations (final (frames [[SetTesselations v]] w)) = v /\
  regenerations (events (frames ([SetTesselations v] :: rest) w)) = 1%nat /\
  (forall u, tesselations (controls u) = prevTesselations u ->
             regenerations (events (tick u)) = 0%nat).
Proof.
  intros Hv Hrest.
  set (w1 := final (gui_actions [SetTesselations v] w)).
  assert (Hn : tesselations (controls w1) = v) by reflexivity.
  assert (Hp : prevTesselations w1 = prevTesselations w) by reflexivity.
  assert (Ht : regenerations (events (tick w1)) = 1%nat).
  { rewrite tick_regenerations, Hn, Hp.
    destruct (v =? prevTesselations w)%Z eqn:E; [|reflexivity].
    now apply Z.eqb_eq in E. }
  assert (Hq : forall u, tesselations (controls u) = prevTesselations u ->
                         regenerations (events (tick u)) = 0%nat).
  { intros u Hu. now rewrite tick_regenerations, Hu, Z.eqb_refl. }
  rewrite !frames_cons. cbv zeta. fold w1.
  destruct (outcome (tick w1)) as [[]|e]; cbn [events final frames ret];
    rewrite ?regenerations_app, Ht; cbn [regenerations events gui_actions];
    repeat split; try reflexivity; try exact Hq;
    try (now rewrite tick_prevTesselations).
  rewrite (frames_no_regeneration v); try assumption; try reflexivity.
  - now rewrite tick_controls.
  - now rewrite tick_prevTesselations.
Qed.

Lemma tessellation_change_regenerates_once_witness :
  3 <> prevTesselations loaded_world /\
  forallb (forallb (keeps_tesselations 3))
    [[SetShape "cube"]; []; [SetShape "icosphere"; SetLambertR 0]] = true /\
  regenerations (events (frames [[SetTesselations 3]] loaded_world)) = 1%nat /\
  regenerations
    (events (frames ([SetTesselations 3]
                     :: [[SetShape "cube"]; [];
                         [SetShape "icosphere"; SetLambertR 0]])
                    loaded_world)) = 1%nat.
Proof.
  assert (H1 : 3 <> prevTesselations loaded_world) by (vm_compute; discriminate).
  assert (H2 : forallb (forallb (keeps_tesselations 3))
                 [[SetShape "cube"]; []; [SetShape "icosphere"; SetLambertR 0]]
               = true) by reflexivity.
  destruct (tessellation_change_regenerates_once loaded_world 3 _ H1 H2)
    as (G1 & _ & G2 & _).
  split; [exact H1|]. split; [exact H2|]. split; [exact G1|exact G2].
Defined.

(** ** Runs in which the user only uses the widgets *)

Lemma allowed_shape s : allowed (SetShape s) = true -> recognized_shape s = true.
Proof.
  unfold allowed, select_allows, recognized_shape. simpl.
  now rewrite !orb_false_r.
Qed.

Lemma loadScene_loaded w : loaded (final (loadScene w)) = true.
Proof.
  destruct w as [c i s q p t st]. unfold_js.
  eapply loaded_intro; simpl; try reflexivity; store_simpl; simpl; lia.
Qed.

Lemma allowed_action_ready a w :
  allowed a = true ->
  loaded w = true /\ recognized_shape (shape (controls w)) = true ->
  loaded (final (gui_action a w)) = true /\
  recognized_shape (shape (controls (final (gui_action a w)))) = true.
Proof.
  intros Ha [Hl Hr]. destruct a; try (split; assumption).
  - split; [assumption|]. now apply allowed_shape.
  - split; [apply loadScene_loaded|]. now destruct w.
Qed.

Lemma allowed_actions_ready acts : forall w,
  forallb allowed acts = true ->
  loaded w = true /\ recognized_shape (shape (controls w)) = true ->
  loaded (final (gui_actions acts w)) = true /\
  recognized_shape (shape (controls (final (gui_actions acts w)))) = true.
Proof.
  induction acts as [|a acts IH]; intros w H Hw; [exact Hw|].
  simpl in H. apply andb_true_iff in H as [Ha Hacts].
  simpl. rewrite (bind_ok _ _ _ tt) by apply gui_action_ok. simpl.
  apply IH; [assumption|]. now apply allowed_action_ready.
Qed.

Lemma frames_allowed inputs : forall w,
  forallb (forallb allowed) inputs = true ->
  loaded w = true /\ recognized_shape (shape (controls w)) = true ->
  outcome (frames inputs w) = Ok tt /\
  length (render_frames (events (frames inputs w))) = length inputs.
Proof.
  induction inputs as [|acts rest IH]; intros w H Hw; [now split|].
  simpl in H. apply andb_true_iff in H as [Hacts Hrest].
  destruct (allowed_actions_ready acts w Hacts Hw) as [Hl Hr].
  destruct (gui_actions_quiet acts w) as [Hq _].
  rewrite frames_cons. cbv zeta.
  set (w1 := final (gui_actions acts w)) in *.
  destruct (tick_settles w1 Hl Hr) as (Hok & Hl' & _).
  destruct (tick_ok_frame w1 Hok) as [Hf _].
  rewrite Hok. cbn [outcome events].
  destruct (IH (final (tick w1)) Hrest) as [G1 G2].
  { split; [assumption|]. now rewrite tick_controls. }
  split; [assumption|].
  rewrite !render_frames_app, Hq, Hf. simpl. now rewrite G2.
Qed.

Lemma program_run h inputs w :
  program h inputs w =
    match outcome (main h w) with
    | Ok _ =>
        {| outcome := outcome (frames inputs (final (main h w)));
           final := final (frames inputs (final (main h w)));
           events := events (main h w)
                     ++ events (frames inputs (final (main h w))) |}
    | Throw e =>
        {| outcome := Throw e; final := final (main h w);
           events := events (main h w) |}
    end.
Proof.
  unfold program.
  destruct (outcome (main h w)) as [[]|e] eqn:E.
  - now rewrite (bind_ok _ _ _ tt) by exact E.
  - now rewrite (bind_throw _ _ _ e) by exact E.
Qed.

Lemma main_working_run :
  main working_host initial_world =
    {| outcome := Ok tt; final := loaded_world; events := startup_events |}.
Proof. vm_compute. reflexivity. Qed.

Lemma loaded_world_ready :
  loaded loaded_world = true /\
  recognized_shape (shape (controls loaded_world)) = true.
Proof. split; vm_compute; reflexivity. Qed.

Lemma startup_frames : render_frames startup_events = [0].
Proof. vm_compute. reflexivity. Qed.

Lemma program_allowed inputs :
  forallb (forallb allowed) inputs = true ->
  length (render_frames (events (program working_host inputs initial_world)))
  = S (length inputs).
Proof.
  intros Hin. rewrite program_run, main_working_run.
  cbn [outcome final events].
  rewrite render_frames_app, startup_frames.
  destruct (frames_allowed inputs loaded_world Hin loaded_world_ready)
    as [_ G].
  cbn [app length]. now rewrite G.
Qed.

(** ** C8 *)

(** Claim C8.  In every run of the program, whatever the page and whatever
    the user does, the frame counters handed to [renderer.render] are
    0, 1, 2, ... in this order: the first frame gets 0 and every later frame
    one more than the frame before.  When the page has a canvas with
    WebGL 2 and the user only uses the widgets, every frame calls the
    renderer, so the counters are those of all the frames. *)
Theorem frame_counter_counts_frames h inputs :
  let counters := render_frames (events (program h inputs initial_world)) in
  counters = map Z.of_nat (seq 0 (length counters)) /\
  (h = working_host ->
   forallb (forallb allowed) inputs = true ->
   length counters = S (length inputs)).
Proof.
  cbv zeta. rewrite program_run.
  pose proof (main_frames h initial_world) as Hm.
  destruct (outcome (main h initial_world)) as [[]|e] eqn:E; cbn [events].
  - destruct Hm as [Hf Ht]. rewrite render_frames_app, Hf.
    change (time initial_world) with 0. cbn [app length seq map].
    split.
    + rewrite frames_render_frames at 1. rewrite Ht. f_equal.
      rewrite <- seq_shift, map_map. apply map_ext. intros j.
      change (time initial_world) with 0. lia.
    + intros Hh Hin. rewrite <- (program_allowed inputs Hin).
      rewrite program_run, <- Hh, E. cbn [events].
      now rewrite render_frames_app, Hf.
  - rewrite Hm. split; [reflexivity|].
    intros Hh _. rewrite Hh, main_working_run in E. discriminate E.
Qed.

Lemma frame_counter_counts_frames_witness :
  render_frames
    (events (program working_host
               [[SetShape "cube"]; [SetTesselations 2; ClickLoadScene]]
               initial_world)) = [0; 1; 2].
Proof.
  destruct (frame_counter_counts_frames working_host
              [[SetShape "cube"]; [SetTesselations 2; ClickLoadScene]])
    as [Hc Hl].
  rewrite Hc, (Hl eq_refl eq_refl). reflexivity.
Defined.

(** ** C10 *)

Ltac pick_event H :=
  simpl in H;
  repeat (destruct H as [H|H]; [try discriminate H|]);
  try contradiction.

Lemma slider_values_all (P : Z -> bool) :
  forallb P slider_values = true ->
  forall n, 0 <= n <= 255 -> P n = true.
Proof.
  intros H n Hn. rewrite forallb_forall in H. apply H.
  unfold slider_values. rewrite <- (Z2Nat.id n) by lia.
  apply in_map, in_seq. lia.
Qed.

(** The colour that [tick] passes is not the exact quotient.  With the
    controls that the program starts with, lambertR is 200, and the first
    component of the colour of the first frame after [main] is the single
    13158601 / 2^24, not 200/255, which no binary float stands for. *)
Lemma render_color_is_rounded_counterexample :
  lambertR (controls loaded_world) = 200 /\
  renders (events (tick loaded_world)) =
    [ERender (Some lambert) [0%nat]
             (S754_finite false 13158601 (-24),
              S754_finite false 13158601 (-27),
              S754_finite false 13158601 (-27),
              S754_finite false 8388608 (-23)) 1] /\
  float_value (S754_finite false 13158601 (-24)) = Some (13158601 # 16777216)%Q /\
  ~ (13158601 # 16777216 == 200 # 255)%Q /\
  same_color (S754_finite false 13158601 (-24),
              S754_finite false 13158601 (-27),
              S754_finite false 13158601 (-27),
              S754_finite false 8388608 (-23))
             (quotient_color (controls loaded_world)) = false.
Proof.
  split; [vm_compute; reflexivity|].
  split; [vm_compute; reflexivity|].
  split; [vm_compute; reflexivity|].
  split; [|vm_compute; reflexivity].
  intros H. unfold Qeq in H. cbn in H. discriminate H.
Qed.

(** Claim C10, amended.  Whenever a [tick] calls the renderer, the colour
    it passes is the [vec4] of singles built from the three doubles
    lambertR/255, lambertG/255 and lambertB/255, with the values that the
    controls hold in that frame, and from 1: each component is the
    quotient in double precision rounded to single precision.  The alpha
    component is exactly 1.  For a slider value from 0 to 255 the component
    is within 2^-25 of the real quotient, and it is that quotient only for
    0 and 255. *)
Theorem render_color_from_controls w sh ds col fr :
  In (ERender sh ds col fr) (events (tick w)) ->
  col = (to_float32 (number_div (number_of_Z (lambertR (controls w)))
                                (number_of_Z 255)),
         to_float32 (number_div (number_of_Z (lambertG (controls w)))
                                (number_of_Z 255)),
         to_float32 (number_div (number_of_Z (lambertB (controls w)))
                                (number_of_Z 255)),
         to_float32 (number_of_Z 1)) /\
  exactly (snd col) 1 = true /\
  forall n, 0 <= n <= 255 ->
    let x := to_float32 (number_div (number_of_Z n) (number_of_Z 255)) in
    within (1 # 33554432) x (inject_Z n / 255) = true /\
    (exactly x (inject_Z n / 255) = true <-> n = 0 \/ n = 255).
Proof.
  intros H.
  assert (E : col = color_override (controls w)).
  { destruct w as [[n sh' sn r g b] i s q p t st].
    revert H. unfold_js. destruct (n =? p)%Z; run_js; intros H; pick_event H;
      injection H as _ _ <- _; reflexivity. }
  subst col. split; [reflexivity|]. split; [reflexivity|].
  intros n Hn. cbv zeta.
  pose proof (slider_values_all
    (fun n =>
       let x := to_float32 (number_div (number_of_Z n) (number_of_Z 255)) in
       within (1 # 33554432) x (inject_Z n / 255)
       && Bool.eqb (exactly x (inject_Z n / 255))
                   ((n =? 0)%Z || (n =? 255)%Z))
    ltac:(vm_compute; reflexivity) n Hn) as C.
  cbv beta zeta in C. apply andb_true_iff in C as [C1 C2].
  apply Bool.eqb_prop in C2. split; [exact C1|].
  rewrite C2, orb_true_iff, !Z.eqb_eq. reflexivity.
Qed.

Lemma render_color_from_controls_witness :
  In (ERender (Some lambert) [0%nat]
              (S754_finite false 13158601 (-24),
               S754_finite false 13158601 (-27),
               S754_finite false 13158601 (-27),
               S754_finite false 8388608 (-23)) 1)
     (events (tick loaded_world)) /\
  (S754_finite false 13158601 (-24),
   S754_finite false 13158601 (-27),
   S754_finite false 13158601 (-27),
   S754_finite false 8388608 (-23)) =
    (to_float32 (number_div (number_of_Z (lambertR (controls loaded_world)))
                            (number_of_Z 255)),
     to_float32 (number_div (number_of_Z (lambertG (controls loaded_world)))
                            (number_of_Z 255)),
     to_float32 (number_div (number_of_Z (lambertB (controls loaded_world)))
                            (number_of_Z 255)),
     to_float32 (number_of_Z 1)) /\
  within (1 # 33554432)
         (to_float32 (number_div (number_of_Z 200) (number_of_Z 255)))
         (200 / 255) = true.
Proof.
  assert (H : In (ERender (Some lambert) [0%nat]
                    (S754_finite false 13158601 (-24),
                     S754_finite false 13158601 (-27),
                     S754_finite false 13158601 (-27),
                     S754_finite false 8388608 (-23)) 1)
                 (events (tick loaded_world))).
  { vm_compute. do 6 right. left. reflexivity. }
  split; [exact H|].
  destruct (render_color_from_controls loaded_world _ _ _ _ H)
    as (E & _ & A).
  split; [exact E|].
  exact (proj1 (A 200 ltac:(lia))).
Defined.

(** ** C1 *)

Lemma shader_for_unrecognized s :
  recognized_shader s = false -> shader_for s = None.
Proof.
  unfold recognized_shader, shader_for.
  destruct (s =? "lambert"); [discriminate|].
  destruct (s =? "fixed gradient"); [discriminate|].
  destruct (s =? "noise"); [discriminate|reflexivity].
Qed.

(** The claim fails at both kinds of frame it speaks about.  With the shape
    selector on a value the switch does not know, [tick] throws at
    [toDraw.create()].  With only the shader selector on such a value, the
    renderer is still called. *)
Lemma unrecognized_selector_counterexample :
  (let w := final (gui_action (SetShape "torus") loaded_world) in
   recognized_shape (shape (controls w)) = false /\
   outcome (tick w) = Throw TypeError) /\
  (let w := final (gui_action (SetShaderName "phong") loaded_world) in
   recognized_shader (shaderName (controls w)) = false /\
   renders (events (tick w)) =
     [ERender None [0%nat]
              (S754_finite false 13158601 (-24),
               S754_finite false 13158601 (-27),
               S754_finite false 13158601 (-27),
               S754_finite false 8388608 (-23)) 1]).
Proof. vm_compute. repeat split; reflexivity. Qed.

(** Claim C1, amended.  Take a frame, after the scene is loaded, in which
    the shape selector or the shader selector holds a value outside the
    recognized sets.  If the shape is not recognized, the drawable stays
    unset, [tick] throws a [TypeError] at [toDraw.create()], the renderer
    is not called and the frame counter does not move.  If the shape is
    recognized and the shader is not, the shader stays unset and the
    renderer is called once, with the unset shader and the selected
    drawable. *)
Theorem tick_with_unrecognized_selector w :
  loaded w = true ->
  recognized_shape (shape (controls w))
  && recognized_shader (shaderName (controls w)) = false ->
  if recognized_shape (shape (controls w)) then
    shader_for (shaderName (controls w)) = None /\
    exists o,
      selected (final (tick w)) = Some o /\
      renders (events (tick w)) =
        [ERender None [o] (color_override (controls w)) (time w)]
  else
    selected w = None /\
    outcome (tick w) = Throw TypeError /\
    renders (events (tick w)) = [] /\
    time (final (tick w)) = time w.
Proof.
  intros Hl Hu.
  destruct (recognized_shape (shape (controls w))) eqn:Hr.
  - simpl in Hu. pose proof (shader_for_unrecognized _ Hu) as Hs.
    split; [exact Hs|].
    destruct (tick_draws_selected w Hl Hr) as (o & Ho & Hd).
    exists o. rewrite Hs in Hd. now split.
  - clear Hl Hu. destruct w as [[n sh sn r g b] i s q p t st].
    unfold recognized_shape in Hr. simpl in Hr.
    apply orb_false_iff in Hr as [E1 E2].
    unfold selected. unfold_js.
    destruct (n =? p)%Z; unfold_js; rewrite ?E1, ?E2; unfold_js;
      repeat split; reflexivity.
Qed.

Lemma tick_with_unrecognized_selector_witness :
  (let w := final (gui_action (SetShape "torus") loaded_world) in
   outcome (tick w) = Throw TypeError /\ renders (events (tick w)) = []) /\
  (let w := final (gui_action (SetShaderName "phong") loaded_world) in
   exists o,
     renders (events (tick w)) =
       [ERender None [o] (color_override (controls w)) (time w)]).
Proof.
  split; cbv zeta.
  - assert (Hl : loaded (final (gui_action (SetShape "torus") loaded_world))
                 = true) by (vm_compute; reflexivity).
    pose proof (tick_with_unrecognized_selector _ Hl eq_refl) as H.
    destruct H as (_ & H1 & H2 & _). split; assumption.
  - assert (Hl : loaded (final (gui_action (SetShaderName "phong") loaded_world))
                 = true) by (vm_compute; reflexivity).
    pose proof (tick_with_unrecognized_selector _ Hl eq_refl) as H.
    destruct H as (_ & o & _ & H2). exists o. exact H2.
Defined.

(** ** C3 *)

(** What the regeneration does in general: the variable [icosphere] is
    given a new icosphere at the control's level, with centre (0,0,0) and
    radius 1, and [create] is called on it; [destroy] is not called on the
    icosphere that the variable held, which keeps its buffers. *)
Lemma regenerate_replaces_without_destroy w i :
  icosphere w = Some i ->
  (i < length (store w))%nat ->
  tesselations (controls w) <> prevTesselations w ->
  let n := length (store w) in
  events (regenerate w) =
    [ENew n (Icosphere (0, 0, 0) 1 (tesselations (controls w))); ECreate n] /\
  icosphere (final (regenerate w)) = Some n /\
  holds_buffers (final (regenerate w)) i = holds_buffers w i.
Proof.
  destruct w as [[m sh sn r g b] vi vs vc p t st]. simpl.
  intros -> Hi Hne. unfold holds_buffers. unfold_js.
  destruct (m =? p)%Z eqn:E; [now apply Z.eqb_eq in E|].
  unfold_js. repeat split. store_simpl. reflexivity.
Qed.

(** Claim C3 (the code does otherwise).  After the first frame the
    icosphere is object 0 and holds GPU buffers.  The slider is moved to 3.
    The next [tick] builds object 3, an icosphere of level 3 with centre
    (0,0,0) and radius 1, and draws it, but it never calls [destroy] on
    object 0, which still holds its buffers when the [tick] is over and is
    no longer referred to by any variable. *)
Theorem regeneration_leaves_old_icosphere_undestroyed :
  let w := final (gui_action (SetTesselations 3) loaded_world) in
  let r := tick w in
  icosphere w = Some 0%nat /\
  holds_buffers w 0 = true /\
  outcome r = Ok tt /\
  events r =
    [ECameraUpdate; EStatsBegin; EViewport; EClear;
     ENew 3 (Icosphere (0, 0, 0) 1 3); ECreate 3;
     EDestroy 2; ECreate 3;
     ERender (Some lambert) [3%nat]
             (S754_finite false 13158601 (-24),
              S754_finite false 13158601 (-27),
              S754_finite false 13158601 (-27),
              S754_finite false 8388608 (-23)) 1;
     EStatsEnd; ERequestAnimationFrame] /\
  ~ In (EDestroy 0) (events r) /\
  icosphere (final r) = Some 3%nat /\
  square (final r) = Some 1%nat /\
  cube (final r) = Some 2%nat /\
  holds_buffers (final r) 0 = true.
Proof.
  vm_compute. repeat split; try reflexivity.
  intros H. repeat (destruct H as [H|H]; [discriminate H|]). exact H.
Qed.

(** ** C6 *)

Lemma alter_last (f : Drawable -> Drawable) (st : list Drawable) d :
  alter f (length st) (st ++ [d]) = st ++ [f d].
Proof.
  replace (length st) with (length st + 0)%nat by lia.
  now rewrite alter_app_r.
Qed.

(** Claim C6.  The 'Load Scene' entry of the GUI is a button, and clicking
    it runs [loadScene], which builds three new objects, an icosphere with
    centre (0,0,0), radius 1 and the current value of the tessellation
    control, a square and a cube, calls [create] on each of them, and makes
    the variables [icosphere], [square] and [cube] refer to them. *)
Theorem load_scene_rebuilds_all_shapes w :
  let n := length (store w) in
  let r := gui_action ClickLoadScene w in
  In (Button "Load Scene") gui_widgets /\
  outcome r = Ok tt /\
  events r =
    [ENew n (Icosphere (0, 0, 0) 1 (tesselations (controls w))); ECreate n;
     ENew (n + 1) (Square (0, 0, 0)); ECreate (n + 1);
     ENew (n + 2) (Cube (0, 0, 0)); ECreate (n + 2)] /\
  icosphere (final r) = Some n /\
  square (final r) = Some (n + 1)%nat /\
  cube (final r) = Some (n + 2)%nat /\
  store (final r) =
    store w ++
      [{| geometry := Icosphere (0, 0, 0) 1 (tesselations (controls w));
          buffers := true |};
       {| geometry := Square (0, 0, 0); buffers := true |};
       {| geometry := Cube (0, 0, 0); buffers := true |}].
Proof.
  destruct w as [[m sh sn r g b] vi vs vc p t st]. cbv zeta.
  split; [simpl; tauto|].
  unfold gui_action. unfold_js.
  rewrite !alter_last, !length_app. cbn [length].
  rewrite <- !Nat.add_assoc, <- !app_assoc. repeat split; reflexivity.
Qed.

(** ** C7 *)

Lemma main_registers_widgets h w :
  registered_widgets (events (main h w)) = gui_widgets.
Proof.
  destruct w as [[n sh sn r g b] i s q p t st], h as [[] []];
    unfold_main; try reflexivity;
    destruct (n =? p)%Z; run_js; reflexivity.
Qed.

(** Claim C7.  On every page, the sliders that [main] registers with the
    GUI are the tessellation slider, from 0 to 8 in steps of 1, and the
    three colour sliders, each from 0 to 255 in steps of 1; the selectors
    it registers are the shape selector, with the options 'icosphere' and
    'cube', and the shader selector, with the options 'lambert',
    'fixed gradient' and 'noise', which stand for the lambert, the gradient
    and the noise shader program; the one other widget is the
    'Load Scene' button. *)
Theorem gui_sliders_and_selectors h w :
  let ws := registered_widgets (events (main h w)) in
  List.filter is_slider ws =
    [Slider "tesselations" 0 8 1; Slider "lambertR" 0 255 1;
     Slider "lambertG" 0 255 1; Slider "lambertB" 0 255 1] /\
  List.filter is_select ws =
    [Select "shape" ["icosphere"; "cube"];
     Select "shaderName" ["lambert"; "fixed gradient"; "noise"]] /\
  List.filter (fun x => negb (is_slider x || is_select x)) ws =
    [Button "Load Scene"] /\
  map shader_for ["lambert"; "fixed gradient"; "noise"] =
    [Some lambert; Some gradient; Some noise].
Proof.
  cbv zeta. rewrite main_registers_widgets. repeat split; reflexivity.
Qed.

(** ** C9 *)

(** Claim C9.  On a page whose canvas gives no WebGL 2 context, the whole
    run of the program, whatever the user does, shows the alert
    'WebGL 2 not supported!' exactly once.  The context is asked for once
    and not again, and nothing is done about the failure: [main] goes on
    with the missing context, which it hands to [setGL], and, the
    collaborators returning, ends in a [TypeError] at [gl.enable] before any
    frame is drawn. *)
Theorem missing_webgl2_alerts_once h inputs w :
  canvas_present h = true ->
  webgl2 h = false ->
  let r := program h inputs w in
  alerts (events r) = ["WebGL 2 not supported!"] /\
  length (List.filter is_get_context (events r)) = 1%nat /\
  In (ESetGL false) (events r) /\
  outcome r = Throw TypeError /\
  renders (events r) = [].
Proof.
  destruct h as [[] []]; intros Hc Hg;
    try discriminate Hc; try discriminate Hg.
  cbv zeta. rewrite program_run.
  destruct w as [[n sh sn r g b] i s q p t st].
  unfold_main. repeat split; try reflexivity.
  simpl. tauto.
Qed.

Lemma missing_webgl2_alerts_once_witness :
  let r := program {| canvas_present := true; webgl2 := false |}
             [[SetShape "cube"]; []] initial_world in
  alerts (events r) = ["WebGL 2 not supported!"] /\
  length (List.filter is_get_context (events r)) = 1%nat /\
  outcome r = Throw TypeError.
Proof.
  destruct (missing_webgl2_alerts_once
              {| canvas_present := true; webgl2 := false |}
              [[SetShape "cube"]; []] initial_world eq_refl eq_refl)
    as (H1 & H2 & _ & H4 & _).
  cbv zeta. split; [exact H1|]. split; [exact H2|exact H4].
Defined.

(** With WebGL 2 there is no alert in the start-up. *)
Lemma working_host_no_alert : alerts startup_events = [].
Proof. vm_compute. reflexivity. Qed.

(** ** Frames without regeneration *)








(** ** C4 *)



(* ===================================================================== *)
(** * Properties of the icosphere generator                               *)
(* ===================================================================== *)

Local Open Scope R_scope.

(** ** Vectors *)

Lemma vdot_comm u v : vdot u v = vdot v u.
Proof. destruct u as [[ux uy] uz], v as [[vx vy] vz]. simpl. ring. Qed.

Lemma vdot_add_l u v w : vdot (vadd u v) w = vdot u w + vdot v w.
Proof.
  destruct u as [[ux uy] uz], v as [[vx vy] vz], w as [[wx wy] wz]. simpl. ring.
Qed.

Lemma vdot_add_r u v w : vdot u (vadd v w) = vdot u v + vdot u w.
Proof. now rewrite vdot_comm, vdot_add_l, !(vdot_comm u). Qed.

Lemma vdot_scale_l k u v : vdot (vscale k u) v = k * vdot u v.
Proof. destruct u as [[ux uy] uz], v as [[vx vy] vz]. simpl. ring. Qed.

Lemma vdot_scale_r k u v : vdot u (vscale k v) = k * vdot u v.
Proof. now rewrite vdot_comm, vdot_scale_l, vdot_comm. Qed.

Lemma vscale_vscale k l u : vscale k (vscale l u) = vscale (k * l) u.
Proof. destruct u as [[ux uy] uz]. simpl. f_equal; [f_equal|]; ring. Qed.

Lemma vadd_comm u v : vadd u v = vadd v u.
Proof.
  destruct u as [[ux uy] uz], v as [[vx vy] vz]. simpl.
  f_equal; [f_equal|]; ring.
Qed.

Lemma normalized_midpoint_comm u v :
  normalized_midpoint u v = normalized_midpoint v u.
Proof. unfold normalized_midpoint, midpoint. now rewrite vadd_comm. Qed.

Lemma vnorm_positive u : 0 < vdot u u -> 0 < vnorm u.
Proof. intros H. now apply sqrt_lt_R0. Qed.

Lemma vnorm_square u : 0 < vdot u u -> vnorm u * vnorm u = vdot u u.
Proof. intros H. apply sqrt_sqrt. lra. Qed.

Lemma normalize_unit u : 0 < vdot u u -> is_unit (normalize u).
Proof.
  intros H. unfold is_unit, normalize.
  rewrite vdot_scale_l, vdot_scale_r.
  pose proof (vnorm_positive u H) as Hn. pose proof (vnorm_square u H) as Hs.
  rewrite <- Hs. field. lra.
Qed.

Lemma midpoint_self a b :
  is_unit a -> is_unit b ->
  vdot (midpoint a b) (midpoint a b) = (1 + vdot a b) / 2.
Proof.
  unfold is_unit, midpoint. intros Ha Hb.
  rewrite vdot_scale_l, vdot_scale_r, vdot_add_l, !vdot_add_r, Ha, Hb.
  rewrite (vdot_comm b a). field.
Qed.

Lemma normalized_midpoint_unit a b :
  is_unit a -> is_unit b -> acute a b -> is_unit (normalized_midpoint a b).
Proof.
  intros Ha Hb Hab. apply normalize_unit.
  rewrite midpoint_self by assumption. unfold acute in Hab. lra.
Qed.

(** The normalized midpoint is a positive multiple of the sum. *)
Lemma normalized_midpoint_scaled a b :
  is_unit a -> is_unit b -> acute a b ->
  exists k, 0 < k /\ normalized_midpoint a b = vscale k (vadd a b).
Proof.
  intros Ha Hb Hab.
  assert (Hm : 0 < vdot (midpoint a b) (midpoint a b)).
  { rewrite midpoint_self by assumption. unfold acute in Hab. lra. }
  pose proof (vnorm_positive _ Hm) as Hn.
  exists (/ vnorm (midpoint a b) * (1 / 2)). split.
  - apply Rmult_lt_0_compat; [now apply Rinv_0_lt_compat|lra].
  - unfold normalized_midpoint, normalize. unfold midpoint at 2.
    now rewrite vscale_vscale.
Qed.

(** The corner triangle at [a] of a triangle [a b c]. *)
Lemma corner_acute a b c :
  is_unit a -> is_unit b -> is_unit c ->
  acute a b -> acute b c -> acute c a ->
  acute a (normalized_midpoint a b) /\
  acute (normalized_midpoint a b) (normalized_midpoint c a) /\
  acute (normalized_midpoint c a) a.
Proof.
  intros Ha Hb Hc Hab Hbc Hca.
  destruct (normalized_midpoint_scaled a b Ha Hb Hab) as (k & Hk & ->).
  destruct (normalized_midpoint_scaled c a Hc Ha Hca) as (l & Hl & ->).
  unfold acute, is_unit in *.
  rewrite !vdot_scale_l, !vdot_scale_r, ?vdot_add_l, ?vdot_add_r, ?vdot_add_l.
  pose proof (vdot_comm a b). pose proof (vdot_comm b c).
  pose proof (vdot_comm c a).
  repeat split; repeat (apply Rmult_lt_0_compat; [lra|]); lra.
Qed.

(** The middle triangle. *)
Lemma middle_acute a b c :
  is_unit a -> is_unit b -> is_unit c ->
  acute a b -> acute b c -> acute c a ->
  acute (normalized_midpoint a b) (normalized_midpoint b c).
Proof.
  intros Ha Hb Hc Hab Hbc Hca.
  destruct (normalized_midpoint_scaled a b Ha Hb Hab) as (k & Hk & ->).
  destruct (normalized_midpoint_scaled b c Hb Hc Hbc) as (l & Hl & ->).
  unfold acute, is_unit in *.
  rewrite !vdot_scale_l, !vdot_scale_r, ?vdot_add_l, ?vdot_add_r.
  pose proof (vdot_comm a b). pose proof (vdot_comm b c).
  pose proof (vdot_comm c a).
  repeat (apply Rmult_lt_0_compat; [lra|]); lra.
Qed.

Lemma extends_refl vs : extends vs vs.
Proof. exists []. now rewrite app_nil_r. Qed.

Lemma extends_trans vs1 vs2 vs3 :
  extends vs1 vs2 -> extends vs2 vs3 -> extends vs1 vs3.
Proof. intros [e1 ->] [e2 ->]. exists (e1 ++ e2). now rewrite app_assoc. Qed.

Lemma extends_nth vs vs' i :
  extends vs vs' -> (i < length vs)%nat ->
  (i < length vs')%nat /\ nth i vs' vzero = nth i vs vzero.
Proof.
  intros [ex ->] Hi. rewrite length_app. split; [lia|].
  now apply List.app_nth1.
Qed.

Lemma unit_nth vs i :
  Forall is_unit vs -> (i < length vs)%nat -> is_unit (nth i vs vzero).
Proof.
  intros H Hi. rewrite List.Forall_forall in H. apply H. now apply List.nth_In.
Qed.

Lemma triangle_ok_extends vs vs' f :
  extends vs vs' -> triangle_ok vs f -> triangle_ok vs' f.
Proof.
  intros He. destruct f as [[a b] c]. unfold triangle_ok.
  intros (Ha & Hb & Hc & H1 & H2 & H3).
  destruct (extends_nth vs vs' a He Ha) as [Ha' ->].
  destruct (extends_nth vs vs' b He Hb) as [Hb' ->].
  destruct (extends_nth vs vs' c He Hc) as [Hc' ->].
  now repeat split.
Qed.

Lemma edge_key_midpoint old a b i j :
  edge_key a b = (i, j) ->
  normalized_midpoint (nth i old vzero) (nth j old vzero) =
  normalized_midpoint (nth a old vzero) (nth b old vzero).
Proof.
  unfold edge_key. intros [= <- <-].
  destruct (Nat.le_ge_cases a b) as [H|H].
  - now rewrite Nat.min_l, Nat.max_r.
  - rewrite Nat.min_r, Nat.max_l by assumption.
    apply normalized_midpoint_comm.
Qed.

Lemma midpoint_index_ok old s a b k s' :
  pass_ok old s ->
  (a < length old)%nat -> (b < length old)%nat ->
  acute (nth a old vzero) (nth b old vzero) ->
  midpoint_index normalized_midpoint vzero a b s = (k, s') ->
  pass_ok old s' /\ extends (verts s) (verts s') /\
  (k < length (verts s'))%nat /\
  nth k (verts s') vzero =
    normalized_midpoint (nth a old vzero) (nth b old vzero).
Proof.
  intros [He Hu Hc] Ha Hb Hab. unfold midpoint_index.
  destruct (cache s !! edge_key a b) as [n|] eqn:E.
  - intros [= <- <-]. split; [now split|]. split; [apply extends_refl|].
    destruct (edge_key a b) as [i j] eqn:Ek.
    destruct (Hc i j n E) as [Hn Hv]. split; [exact Hn|].
    rewrite Hv. now apply edge_key_midpoint.
  - intros [= <- <-]. cbn [verts cache].
    destruct (extends_nth old (verts s) a He Ha) as [Ha' Hva].
    destruct (extends_nth old (verts s) b He Hb) as [Hb' Hvb].
    rewrite Hva, Hvb.
    set (v := normalized_midpoint (nth a old vzero) (nth b old vzero)).
    assert (Hv : is_unit v).
    { apply normalized_midpoint_unit; [| |assumption].
      - rewrite <- Hva. now apply unit_nth.
      - rewrite <- Hvb. now apply unit_nth. }
    assert (Hnew : nth (length (verts s)) (verts s ++ [v]) vzero = v).
    { rewrite List.app_nth2 by lia. now rewrite Nat.sub_diag. }
    split; [split|].
    + eapply extends_trans; [exact He|]. now exists [v].
    + apply Forall_app. split; [assumption|]. now constructor.
    + intros i j n. cbn [verts cache]. rewrite length_app. simpl.
      destruct (decide (edge_key a b = (i, j))) as [Hk|Hk].
      * rewrite Hk, lookup_insert_eq. intros [= <-]. split; [lia|].
        rewrite Hnew. symmetry. now apply edge_key_midpoint.
      * rewrite lookup_insert_ne by assumption. intros Hl.
        destruct (Hc i j n Hl) as [Hn Hvn]. split; [lia|].
        now rewrite List.app_nth1.
    + split; [now exists [v]|]. rewrite length_app. simpl.
      split; [lia|exact Hnew].
Qed.

Lemma split_face_ok old s f new s' :
  pass_ok old s ->
  Forall is_unit old ->
  triangle_ok old f ->
  split_face normalized_midpoint vzero f s = (new, s') ->
  pass_ok old s' /\ extends (verts s) (verts s') /\
  Forall (triangle_ok (verts s')) new.
Proof.
  intros Hs Hu. destruct f as [[a b] c].
  intros (Ha & Hb & Hc & Hab & Hbc & Hca). unfold split_face.
  destruct (midpoint_index _ _ a b s) as [mab s1] eqn:E1.
  destruct (midpoint_index _ _ b c s1) as [mbc s2] eqn:E2.
  destruct (midpoint_index _ _ c a s2) as [mca s3] eqn:E3.
  intros [= <- <-].
  destruct (midpoint_index_ok old s a b mab s1 Hs Ha Hb Hab E1)
    as (Hs1 & X1 & L1 & V1).
  destruct (midpoint_index_ok old s1 b c mbc s2 Hs1 Hb Hc Hbc E2)
    as (Hs2 & X2 & L2 & V2).
  destruct (midpoint_index_ok old s2 c a mca s3 Hs2 Hc Ha Hca E3)
    as (Hs3 & X3 & L3 & V3).
  split; [exact Hs3|].
  split; [exact (extends_trans _ _ _ X1 (extends_trans _ _ _ X2 X3))|].
  pose proof (pass_extends _ _ Hs3) as X.
  destruct (extends_nth _ _ a X Ha) as [La Va].
  destruct (extends_nth _ _ b X Hb) as [Lb Vb].
  destruct (extends_nth _ _ c X Hc) as [Lc Vc].
  destruct (extends_nth _ _ mab (extends_trans _ _ _ X2 X3) L1) as [Lab Vab].
  destruct (extends_nth _ _ mbc X3 L2) as [Lbc Vbc].
  rewrite V1 in Vab. rewrite V2 in Vbc.
  pose proof (unit_nth old a Hu Ha) as Ua.
  pose proof (unit_nth old b Hu Hb) as Ub.
  pose proof (unit_nth old c Hu Hc) as Uc.
  destruct (corner_acute _ _ _ Ua Ub Uc Hab Hbc Hca) as (A1 & A2 & A3).
  destruct (corner_acute _ _ _ Ub Uc Ua Hbc Hca Hab) as (B1 & B2 & B3).
  destruct (corner_acute _ _ _ Uc Ua Ub Hca Hab Hbc) as (C1 & C2 & C3).
  pose proof (middle_acute _ _ _ Ua Ub Uc Hab Hbc Hca) as M1.
  pose proof (middle_acute _ _ _ Ub Uc Ua Hbc Hca Hab) as M2.
  pose proof (middle_acute _ _ _ Uc Ua Ub Hca Hab Hbc) as M3.
  repeat constructor; unfold triangle_ok;
    rewrite ?Va, ?Vb, ?Vc, ?Vab, ?Vbc, ?V3; repeat split; assumption.
Qed.

Lemma split_faces_ok old fs : forall s new s',
  pass_ok old s ->
  Forall is_unit old ->
  Forall (triangle_ok old) fs ->
  split_faces normalized_midpoint vzero fs s = (new, s') ->
  pass_ok old s' /\ extends (verts s) (verts s') /\
  Forall (triangle_ok (verts s')) new.
Proof.
  induction fs as [|f fs IH]; intros s new s' Hs Hu Hfs; simpl.
  - intros [= <- <-]. split; [assumption|]. split; [apply extends_refl|].
    constructor.
  - destruct (split_face _ _ f s) as [new1 s1] eqn:E1.
    destruct (split_faces _ _ fs s1) as [new2 s2] eqn:E2.
    intros [= <- <-]. inversion Hfs as [|? ? Hf Hfs']; subst.
    destruct (split_face_ok old s f new1 s1 Hs Hu Hf E1) as (Hs1 & X1 & T1).
    destruct (IH s1 new2 s2 Hs1 Hu Hfs' E2) as (Hs2 & X2 & T2).
    split; [assumption|]. split; [exact (extends_trans _ _ _ X1 X2)|].
    apply Forall_app. split; [|assumption].
    eapply Forall_impl; [exact T1|]. intros f'. now apply triangle_ok_extends.
Qed.

Lemma subdivide_ok m :
  mesh_ok m -> mesh_ok (subdivide normalized_midpoint vzero m).
Proof.
  intros [Hu Hf]. unfold subdivide.
  destruct (split_faces _ _ (faces m) _) as [fs s] eqn:E.
  assert (H0 : pass_ok (vertices m) {| verts := vertices m; cache := ∅ |}).
  { split; cbn [verts cache]; [apply extends_refl|assumption|].
    intros i j k. now rewrite lookup_empty. }
  destruct (split_faces_ok (vertices m) (faces m) _ fs s H0 Hu Hf E)
    as (Hs & _ & T).
  split; cbn [vertices faces]; [apply (pass_units _ _ Hs)|exact T].
Qed.

Lemma subdivide_times_ok L : forall m,
  mesh_ok m -> mesh_ok (subdivide_times normalized_midpoint vzero L m).
Proof.
  induction L as [|L IH]; intros m Hm; [exact Hm|].
  simpl. apply IH. now apply subdivide_ok.
Qed.

Section Counting.
Context {V : Type} (nm : V -> V -> V) (d : V).

Lemma split_faces_length fs : forall s,
  length (fst (split_faces nm d fs s)) = (4 * length fs)%nat.
Proof.
  induction fs as [|[[a b] c] fs IH]; intros s; [reflexivity|].
  simpl. unfold split_face.
  destruct (midpoint_index nm d a b s) as [mab s1].
  destruct (midpoint_index nm d b c s1) as [mbc s2].
  destruct (midpoint_index nm d c a s2) as [mca s3].
  specialize (IH s3). destruct (split_faces nm d fs s3) as [rest s4].
  simpl in *. lia.
Qed.

Lemma subdivide_faces m :
  length (faces (subdivide nm d m)) = (4 * length (faces m))%nat.
Proof.
  unfold subdivide.
  pose proof (split_faces_length (faces m)
                {| verts := vertices m; cache := ∅ |}) as H.
  now destruct (split_faces nm d (faces m) _).
Qed.

Lemma subdivide_times_faces L : forall m,
  length (faces (subdivide_times nm d L m)) = (4 ^ L * length (faces m))%nat.
Proof.
  induction L as [|L IH]; intros m; [simpl; lia|].
  cbn [subdivide_times]. rewrite IH, subdivide_faces, Nat.pow_succ_r'. lia.
Qed.
End Counting.

Lemma golden_gt_1 : 1 < golden.
Proof.
  unfold golden.
  assert (H : 1 < sqrt 5).
  { rewrite <- sqrt_1 at 1. apply sqrt_lt_1_alt. lra. }
  lra.
Qed.

Lemma acute_normalize u v :
  0 < vdot u u -> 0 < vdot v v -> 0 < vdot u v ->
  acute (normalize u) (normalize v).
Proof.
  intros Hu Hv Huv. unfold acute, normalize.
  rewrite vdot_scale_l, vdot_scale_r.
  apply Rmult_lt_0_compat; [apply Rinv_0_lt_compat; now apply vnorm_positive|].
  apply Rmult_lt_0_compat; [apply Rinv_0_lt_compat; now apply vnorm_positive|].
  assumption.
Qed.

Lemma icosahedron_ok : mesh_ok icosahedron.
Proof.
  pose proof golden_gt_1 as Hg.
  unfold icosahedron. split; cbn [vertices faces].
  - unfold icosahedron_vertices. cbn [map].
    repeat (apply List.Forall_cons; [apply normalize_unit; simpl; nra|]).
    apply List.Forall_nil.
  - unfold icosahedron_faces, icosahedron_vertices, triangle_ok.
    cbn [map length nth].
    repeat (apply List.Forall_cons;
            [repeat split; try lia; apply acute_normalize; simpl; nra|]).
    apply List.Forall_nil.
Qed.

(** ** C5 *)

Lemma distance_scaled v center radius :
  is_unit v -> 0 <= radius ->
  distance (vadd (vscale radius v) center) center = radius.
Proof.
  unfold is_unit, distance, vnorm. intros Hv Hr.
  assert (E : vsub (vadd (vscale radius v) center) center = vscale radius v).
  { destruct v as [[x y] z], center as [[cx cy] cz]. simpl.
    f_equal; [f_equal|]; ring. }
  rewrite E, vdot_scale_l, vdot_scale_r, Hv, Rmult_1_r.
  now apply sqrt_square.
Qed.

Lemma unit_icosphere_ok L : mesh_ok (unit_icosphere L).
Proof. apply subdivide_times_ok, icosahedron_ok. Qed.

(** Claim C5.  For every subdivision level L (in particular for L from 0
    to 8), every centre C and every radius r >= 0, the icosphere has
    exactly 20 * 4^L triangular faces and every vertex lies at distance r
    from C; the distance is exact, the positions being real numbers.  At
    L = 0 there are 12 vertices (and 20 faces), at L = 1 there are 42
    vertices (and 80 faces): the 12 of the icosahedron and one for each of
    its 30 edges, none twice. *)
Theorem icosphere_faces_and_radius center radius L :
  0 <= radius ->
  let m := build_icosphere center radius L in
  length (indices m) = (20 * 4 ^ L)%nat /\
  (forall p, In p (positions m) -> distance p center = radius) /\
  (L = 0%nat -> length (positions m) = 12%nat /\ length (indices m) = 20%nat) /\
  (L = 1%nat -> length (positions m) = 42%nat /\ length (indices m) = 80%nat).
Proof.
  intros Hr. cbv zeta. unfold build_icosphere. cbn [positions indices].
  split; [|split; [|split]].
  - unfold unit_icosphere. rewrite subdivide_times_faces. simpl. lia.
  - intros p Hp. apply List.in_map_iff in Hp as (v & <- & Hv).
    apply distance_scaled; [|exact Hr].
    destruct (unit_icosphere_ok L) as [Hu _].
    rewrite List.Forall_forall in Hu. now apply Hu.
  - intros ->. rewrite List.length_map. split; reflexivity.
  - intros ->. rewrite List.length_map. split; reflexivity.
Qed.

Lemma icosphere_faces_and_radius_witness :
  0 <= 1 /\
  length (positions (icosphere_mesh (0, 0, 0)%Z 1 1)) = 42%nat /\
  length (indices (icosphere_mesh (0, 0, 0)%Z 1 1)) = 80%nat /\
  (forall p, In p (positions (icosphere_mesh (0, 0, 0)%Z 1 1)) ->
             distance p vzero = 1).
Proof.
  destruct (icosphere_faces_and_radius vzero 1 1 Rle_0_1)
    as (_ & Hd & _ & H1).
  destruct (H1 eq_refl) as [Hv Hf].
  split; [exact Rle_0_1|]. split; [exact Hv|]. split; [exact Hf|exact Hd].
Defined.

Local Close Scope R_scope.

(* ===================================================================== *)
(** * Further properties of [main.ts]                                     *)
(* ===================================================================== *)

(** ** The protocol of a frame *)

(** Property X1.  The calls of one [tick] come in a fixed order.  A tick
    that completes calls [camera.update], [stats.begin], [gl.viewport] and
    [renderer.clear], then only builds, uploads and releases shapes, then
    calls [renderer.render] exactly once, with the program of the current
    shader selector, the one selected shape, the colour of the sliders and
    the frame counter, and ends with [stats.end] and
    [requestAnimationFrame(tick)].  A tick that throws has made the four
    opening calls and scene calls only: no [render], no [stats.end] and no
    request for another frame. *)
Theorem tick_protocol w :
  let scene := List.filter is_scene_call (events (tick w)) in
  match outcome (tick w) with
  | Ok _ =>
      exists o,
        selected (final (tick w)) = Some o /\
        events (tick w) =
          [ECameraUpdate; EStatsBegin; EViewport; EClear] ++ scene ++
          [ERender (shader_for (shaderName (controls w))) [o]
                   (color_override (controls w)) (time w);
           EStatsEnd; ERequestAnimationFrame]
  | Throw _ =>
      events (tick w) =
        [ECameraUpdate; EStatsBegin; EViewport; EClear] ++ scene
  end.
Proof.
  destruct w as [[n sh sn r g b] i s q p t st].
  unfold selected. unfold_js.
  destruct (n =? p)%Z; run_js;
    first [congruence | reflexivity | eexists; split; reflexivity].
Qed.

(** ** The missing canvas *)

Lemma tick_render_args w sh ds col fr :
  In (ERender sh ds col fr) (events (tick w)) ->
  sh = shader_for (shaderName (controls w)) /\
  col = color_override (controls w) /\
  fr = time w /\
  exists o, ds = [o] /\ selected (final (tick w)) = Some o.
Proof.
  destruct w as [[n sh' sn r g b] i s q p t st].
  unfold selected. unfold_js. destruct (n =? p)%Z; run_js; intros H;
    pick_event H; try congruence;
    injection H as <- <- <- <-; repeat split; eexists; split; reflexivity.
Qed.

Lemma tick_requests w :
  existsb is_request (events (tick w)) =
    match outcome (tick w) with Ok _ => true | Throw _ => false end.
Proof.
  destruct w as [[n sh sn r g b] i s q p t st].
  unfold_js. destruct (n =? p)%Z; run_js; first [congruence|reflexivity].
Qed.

(* X8 *)
(** Property X2.  On a page without the element 'canvas', [main] throws a
    [TypeError] at [canvas.getContext] after it has set up the statistics
    panel and the seven widgets of the GUI: nothing else is called (no
    alert, no [setGL], no [loadScene], no frame) and no variable of the
    module is changed. *)
Theorem main_without_canvas h w :
  canvas_present h = false ->
  outcome (main h w) = Throw TypeError /\
  final (main h w) = w /\
  events (main h w) = EStatsInit :: map EGuiAdd gui_widgets.
Proof.
  destruct h as [[] g]; intros H; [discriminate H|].
  destruct w as [c i s q p t st]. unfold_main. repeat split; reflexivity.
Qed.

Lemma main_without_canvas_witness :
  let h := {| canvas_present := false; webgl2 := true |} in
  canvas_present h = false /\
  outcome (main h initial_world) = Throw TypeError /\
  final (main h initial_world) = initial_world /\
  alerts (events (main h initial_world)) = [].
Proof.
  cbv zeta.
  destruct (main_without_canvas {| canvas_present := false; webgl2 := true |}
              initial_world eq_refl) as (H1 & H2 & H3).
  split; [reflexivity|]. split; [exact H1|]. split; [exact H2|].
  rewrite H3. reflexivity.
Defined.

(** ** The frame loop as the host runs it *)

Lemma host_event_ok e w : outcome (host_event e w) = Ok tt.
Proof. destruct e as [a|]; [apply gui_action_ok|reflexivity]. Qed.

Lemma host_events_ok es w : outcome (host_events es w) = Ok tt.
Proof.
  revert w. induction es as [|e es IH]; intros w; [reflexivity|].
  simpl. rewrite (bind_ok _ _ _ tt) by apply host_event_ok. simpl. apply IH.
Qed.

Lemma host_events_cons e es w :
  host_events (e :: es) w =
    {| outcome := outcome (host_events es (final (host_event e w)));
       final := final (host_events es (final (host_event e w)));
       events := events (host_event e w)
                 ++ events (host_events es (final (host_event e w))) |}.
Proof. simpl. now rewrite (bind_ok _ _ _ tt) by apply host_event_ok. Qed.

Lemma session_cons armed es rest w :
  session armed (es :: rest) w =
    let w1 := final (host_events es w) in
    if armed then
      let w2 := final (tick w1) in
      let again := match outcome (tick w1) with
                   | Ok _ => true
                   | Throw _ => false
                   end in
      {| outcome := outcome (session again rest w2);
         final := final (session again rest w2);
         events := events (host_events es w) ++ events (tick w1)
                   ++ events (session again rest w2) |}
    else
      {| outcome := outcome (session false rest w1);
         final := final (session false rest w1);
         events := events (host_events es w)
                   ++ events (session false rest w1) |}.
Proof.
  cbn [session]. rewrite (bind_ok _ _ _ tt) by apply host_events_ok.
  cbv zeta. destruct armed; [|reflexivity].
  rewrite (bind_ok _ _ _ (existsb is_request
                            (events (tick (final (host_events es w))))))
    by reflexivity.
  cbn [animation_frame outcome final events]. now rewrite tick_requests.
Qed.

Lemma count_events_app f t1 t2 :
  count_events f (t1 ++ t2) = (count_events f t1 + count_events f t2)%nat.
Proof. unfold count_events. now rewrite List.filter_app, length_app. Qed.

Lemma host_events_count f es : forall w,
  (forall o g, f (ENew o g) = false) ->
  (forall o, f (ECreate o) = false) ->
  f ESetSize = false -> f ESetAspectRatio = false ->
  f EUpdateProjectionMatrix = false ->
  count_events f (events (host_events es w)) = 0%nat.
Proof.
  intros w H1 H2 H3 H4 H5. revert w.
  induction es as [|e es IH]; intros w; [reflexivity|].
  rewrite host_events_cons. cbn [events]. rewrite count_events_app, IH.
  destruct e as [[]|]; unfold count_events; simpl;
    now rewrite ?H1, ?H2, ?H3, ?H4, ?H5.
Qed.

Lemma tick_counts w :
  let t := events (tick w) in
  let done := match outcome (tick w) with Ok _ => 1%nat | Throw _ => 0%nat end in
  count_events is_tick_start t = 1%nat /\
  count_events is_stats_begin t = 1%nat /\
  count_events is_request t = done /\
  count_events is_stats_end t = done /\
  count_events is_render t = done.
Proof.
  destruct w as [[n sh sn r g b] i s q p t st].
  unfold_js. destruct (n =? p)%Z; run_js;
    first [congruence | repeat split; reflexivity].
Qed.

(* X2 *)
(** Property X3.  In the life of the page after [main], whatever GUI and
    resize events come in: every [tick] that renders also calls [stats.end]
    and asks for the next frame, and only such a tick does; every [tick]
    calls [stats.begin]; at most one [tick] does not render, so the first
    [tick] that throws is the last [tick] of the page, its [stats.begin] is
    left without [stats.end], and later GUI events are served without any
    frame; a loop that is not running is never started again. *)
Theorem frame_loop_ends_with_first_throw armed rounds : forall w,
  let t := events (session armed rounds w) in
  count_events is_request t = count_events is_render t /\
  count_events is_stats_end t = count_events is_render t /\
  count_events is_stats_begin t = count_events is_tick_start t /\
  (count_events is_tick_start t <= S (count_events is_render t))%nat /\
  (armed = false -> count_events is_tick_start t = 0%nat).
Proof.
  revert armed. induction rounds as [|es rest IH]; intros armed w.
  { cbv zeta. cbn. repeat split; lia. }
  cbv zeta. rewrite session_cons. cbv zeta.
  assert (H0 : forall f,
             (forall o g, f (ENew o g) = false) ->
             (forall o, f (ECreate o) = false) ->
             f ESetSize = false -> f ESetAspectRatio = false ->
             f EUpdateProjectionMatrix = false ->
             count_events f (events (host_events es w)) = 0%nat)
    by (intros f; apply host_events_count).
  set (w1 := final (host_events es w)).
  destruct armed; cbn [events]; rewrite !count_events_app.
  - destruct (tick_counts w1) as (T1 & T2 & T3 & T4 & T5).
    set (again := match outcome (tick w1) with Ok _ => true | Throw _ => false end).
    destruct (IH again (final (tick w1))) as (I1 & I2 & I3 & I4 & I5).
    rewrite !H0 by reflexivity. rewrite T1, T2, T3, T4, T5, I1, I2, I3.
    repeat split; try lia; try discriminate.
    subst again. destruct (outcome (tick w1)); [lia|].
    rewrite (I5 eq_refl). lia.
  - destruct (IH false w1) as (I1 & I2 & I3 & I4 & I5).
    rewrite !H0 by reflexivity. rewrite I1, I2, I3, (I5 eq_refl).
    repeat split; lia.
Qed.

Lemma frame_loop_ends_with_first_throw_witness :
  let t := events (session true
                     [[Gui (SetShape "torus")]; [Gui ClickLoadScene; Resize];
                      [Gui (SetShape "cube")]] loaded_world) in
  count_events is_tick_start t = 1%nat /\
  count_events is_request t = 0%nat /\
  count_events is_stats_end t = 0%nat.
Proof.
  cbv zeta.
  destruct (frame_loop_ends_with_first_throw true
              [[Gui (SetShape "torus")]; [Gui ClickLoadScene; Resize];
               [Gui (SetShape "cube")]] loaded_world)
    as (H1 & H2 & _ & _ & _).
  assert (Hr : count_events is_render
                 (events (session true
                            [[Gui (SetShape "torus")];
                             [Gui ClickLoadScene; Resize];
                             [Gui (SetShape "cube")]] loaded_world)) = 0%nat)
    by (vm_compute; reflexivity).
  rewrite H1, H2, Hr. split; [vm_compute; reflexivity|]. split; reflexivity.
Defined.

(** ** Resizing the window *)

Lemma projection_fresh_app t1 : forall s t2,
  projection_fresh s (t1 ++ t2) =
    projection_fresh s t1 && projection_fresh (projection_stale s t1) t2.
Proof.
  induction t1 as [|e t1 IH]; intros s t2; [reflexivity|].
  destruct e; cbn [app projection_fresh projection_stale]; rewrite ?IH;
    try reflexivity.
  now rewrite andb_assoc.
Qed.

Lemma projection_stale_app t1 : forall s t2,
  projection_stale s (t1 ++ t2) = projection_stale (projection_stale s t1) t2.
Proof.
  induction t1 as [|e t1 IH]; intros s t2; [reflexivity|].
  destruct e; cbn [app projection_stale]; now rewrite ?IH.
Qed.

Lemma host_events_projection es : forall w,
  (forall s, projection_fresh s (events (host_events es w)) = true) /\
  projection_stale false (events (host_events es w)) = false.
Proof.
  induction es as [|e es IH]; intros w; [split; reflexivity|].
  rewrite host_events_cons. cbn [events].
  destruct (IH (final (host_event e w))) as [F St].
  split.
  - intros s. rewrite projection_fresh_app, F, andb_true_r.
    destruct e as [[]|]; reflexivity.
  - rewrite projection_stale_app.
    replace (projection_stale false (events (host_event e w))) with false;
      [exact St|].
    destruct e as [[]|]; reflexivity.
Qed.

Lemma tick_projection w :
  projection_fresh false (events (tick w)) = true /\
  forall s, projection_stale s (events (tick w)) = s.
Proof.
  destruct w as [[n sh sn r g b] i s q p t st].
  unfold_js. destruct (n =? p)%Z; run_js;
    first [congruence | split; [reflexivity|intros []; reflexivity]].
Qed.

Lemma session_projection rounds : forall armed w,
  projection_fresh false (events (session armed rounds w)) = true.
Proof.
  induction rounds as [|es rest IH]; intros armed w; [reflexivity|].
  rewrite session_cons. cbv zeta.
  destruct (host_events_projection es w) as [F St].
  destruct armed; cbn [events]; rewrite !projection_fresh_app, F, St; cbn [andb].
  - destruct (tick_projection (final (host_events es w))) as [T1 T2].
    rewrite T1, T2. apply IH.
  - apply IH.
Qed.

Lemma main_projection h w s :
  projection_fresh s (events (main h w)) = true /\
  (outcome (main h w) = Ok tt -> projection_stale s (events (main h w)) = false).
Proof.
  destruct w as [[n sh sn r g b] i vs q p t st], h as [[] []];
    unfold_main; try (split; [reflexivity|discriminate]);
    destruct (n =? p)%Z; run_js;
    first [congruence | split; [reflexivity|intros _; reflexivity]
          | split; [reflexivity|discriminate] ].
Qed.

(* X3 *)
(** Property X4.  From [main] on, with any GUI and resize events between
    the frames, every call of [renderer.render] finds the camera's
    projection matrix recomputed since the aspect ratio was last set: [main]
    and the resize listener both call [updateProjectionMatrix] after
    [setAspectRatio], before the next frame.  The resize listener changes no
    variable of the module and does not throw. *)
Theorem projection_matrix_fresh_at_every_render h rounds w stale :
  projection_fresh stale
    (events ((main h;; session true rounds) w)) = true /\
  (forall u, final (on_resize u) = u /\ outcome (on_resize u) = Ok tt).
Proof.
  split; [|intros u; split; reflexivity].
  destruct (main_projection h w stale) as [M1 M2].
  destruct (outcome (main h w)) as [[]|e] eqn:E.
  - rewrite (bind_ok _ _ _ tt) by exact E. cbn [events].
    rewrite projection_fresh_app, M1, (M2 eq_refl). apply session_projection.
  - rewrite (bind_throw _ _ _ e) by exact E. exact M1.
Qed.

(** ** Who writes the controls *)

Lemma host_event_controls e w :
  controls (final (host_event e w)) =
    fold_left (fun c a => write_control a c) (gui_actions_of [e]) (controls w).
Proof. destruct e as [[]|]; reflexivity. Qed.

Lemma host_events_controls es : forall w,
  controls (final (host_events es w)) =
    fold_left (fun c a => write_control a c) (gui_actions_of es) (controls w).
Proof.
  induction es as [|e es IH]; intros w; [reflexivity|].
  rewrite host_events_cons. cbn [final]. rewrite IH, host_event_controls.
  destruct e as [a|]; reflexivity.
Qed.

Lemma gui_actions_of_app es1 es2 :
  gui_actions_of (es1 ++ es2) = gui_actions_of es1 ++ gui_actions_of es2.
Proof.
  induction es1 as [|[a|] es1 IH]; simpl; now rewrite ?IH.
Qed.

Lemma main_controls h w : controls (final (main h w)) = controls w.
Proof.
  destruct w as [[n sh sn r g b] i vs q p t st], h as [[] []];
    unfold_main; try reflexivity;
    destruct (n =? p)%Z; run_js; reflexivity.
Qed.

(** Property X5.  The program never writes the controls: [main] leaves
    them as they are, and after any session they hold exactly what the GUI
    actions wrote, in order; frames, resize events and 'Load Scene' do not
    change them. *)
Theorem controls_hold_what_the_user_entered h rounds : forall armed w,
  controls (final (main h w)) = controls w /\
  controls (final (session armed rounds w)) =
    fold_left (fun c a => write_control a c)
              (gui_actions_of (concat rounds)) (controls w).
Proof.
  intros armed w. split; [apply main_controls|]. revert armed w.
  induction rounds as [|es rest IH]; intros armed w; [reflexivity|].
  rewrite session_cons. cbv zeta. cbn [concat].
  rewrite gui_actions_of_app, fold_left_app, <- host_events_controls.
  destruct armed; cbn [final]; rewrite IH; [|reflexivity].
  now rewrite tick_controls.
Qed.

(** ** [loadScene] and the remembered tessellation *)
(** Property X6.  [loadScene] builds the icosphere with the current
    slider value but does not record it in [prevTesselations].  So when the
    slider is moved and 'Load Scene' is clicked before the next frame, that
    frame builds the icosphere a second time; a click alone builds it once,
    unless the slider was off the remembered value. *)
Theorem load_scene_after_slider_regenerates_twice w v :
  regenerations (events (frames [[SetTesselations v; ClickLoadScene]] w)) =
    (if (v =? prevTesselations w)%Z then 1 else 2)%nat /\
  regenerations (events (frames [[ClickLoadScene]] w)) =
    (if (tesselations (controls w) =? prevTesselations w)%Z then 1 else 2)%nat.
Proof.
  split; rewrite frames_cons; cbv zeta.
  - set (w1 := final (gui_actions [SetTesselations v; ClickLoadScene] w)).
    assert (Hg : regenerations
                   (events (gui_actions [SetTesselations v; ClickLoadScene] w))
                 = 1%nat) by (destruct w; reflexivity).
    assert (Ht : regenerations (events (tick w1)) =
                 if (v =? prevTesselations w)%Z then 0%nat else 1%nat).
    { rewrite tick_regenerations. destruct w; reflexivity. }
    destruct (outcome (tick w1)); cbn [events frames ret];
      rewrite ?regenerations_app, Hg, Ht;
      destruct (v =? prevTesselations w)%Z; reflexivity.
  - set (w1 := final (gui_actions [ClickLoadScene] w)).
    assert (Hg : regenerations (events (gui_actions [ClickLoadScene] w))
                 = 1%nat) by (destruct w; reflexivity).
    assert (Ht : regenerations (events (tick w1)) =
                 if (tesselations (controls w) =? prevTesselations w)%Z
                 then 0%nat else 1%nat).
    { rewrite tick_regenerations. destruct w; reflexivity. }
    destruct (outcome (tick w1)); cbn [events frames ret];
      rewrite ?regenerations_app, Hg, Ht;
      destruct (tesselations (controls w) =? prevTesselations w)%Z;
      reflexivity.
Qed.

(** ** [loadScene] and the shapes it replaces *)
Lemma loadScene_run w :
  loadScene w =
    let n := length (store w) in
    {| outcome := Ok tt;
       final :=
         {| controls := controls w;
            icosphere := Some n;
            square := Some (n + 1)%nat;
            cube := Some (n + 2)%nat;
            prevTesselations := prevTesselations w;
            time := time w;
            store := store w ++
              [{| geometry := Icosphere origin 1 (tesselations (controls w));
                  buffers := true |};
               {| geometry := Square origin; buffers := true |};
               {| geometry := Cube origin; buffers := true |}] |};
       events :=
         [ENew n (Icosphere origin 1 (tesselations (controls w))); ECreate n;
          ENew (n + 1) (Square origin); ECreate (n + 1);
          ENew (n + 2) (Cube origin); ECreate (n + 2)] |}.
Proof.
  destruct w as [[m sh sn r g b] vi vs vc p t st]. cbv zeta. unfold_js.
  rewrite !alter_last, !length_app. cbn [length set_buffers geometry buffers].
  now rewrite <- !Nat.add_assoc, <- !app_assoc.
Qed.

Lemma alter_at_length (f : Drawable -> Drawable) (st l : list Drawable) :
  alter f (length st) (st ++ l) = st ++ alter f 0%nat l.
Proof.
  replace (length st) with (length st + 0)%nat at 1 by lia.
  apply alter_app_r.
Qed.

Lemma held_count_app st l :
  held_count (st ++ l) = (held_count st + held_count l)%nat.
Proof. unfold held_count. now rewrite List.filter_app, length_app. Qed.

Ltac norm_store :=
  repeat first
    [ rewrite <- app_assoc
    | rewrite length_app
    | rewrite alter_app_r
    | rewrite alter_at_length ];
  cbn [app length alter list_alter];
  cbv [set_buffers geometry buffers].

(** Property X7.  A click on 'Load Scene' never calls [destroy]: the three
    shapes it replaces stay as they were, and the frame after the click
    completes.  With [create] and [destroy] as acquiring and releasing the
    buffers of a shape, the number of shapes that hold buffers after that
    frame is larger by two than before the click (by three when the frame
    regenerates the icosphere). *)
Theorem load_scene_keeps_replaced_shapes w :
  recognized_shape (shape (controls w)) = true ->
  let r := frames [[ClickLoadScene]] w in
  outcome r = Ok tt /\
  count_events is_destroy (events (loadScene w)) = 0%nat /\
  (forall o, (o < length (store w))%nat ->
             store (final r) !! o = store w !! o) /\
  gpu_count (final r) =
    (gpu_count w +
     if (tesselations (controls w) =? prevTesselations w)%Z then 2 else 3)%nat.
Proof.
  intros Hr. cbv zeta. rewrite frames_cons. cbv zeta.
  assert (E : final (gui_actions [ClickLoadScene] w) = final (loadScene w))
    by (destruct w; reflexivity).
  rewrite E, loadScene_run. clear E. cbv zeta. cbn [final events].
  destruct w as [[m sh sn r g b] vi vs vc p t st].
  unfold gpu_count, count_events.
  cbn [controls shape tesselations prevTesselations store] in *.
  destruct (recognized_shape_cases _ Hr) as [E1|[E1 E2]];
    unfold_js; rewrite ?E1, ?E2; unfold_js;
    destruct (m =? p)%Z; unfold_js; rewrite ?E1, ?E2; unfold_js;
    cbn [frames]; unfold_js; norm_store.
  all: repeat split; try reflexivity.
  all: try (intros o Ho; now rewrite lookup_app_l by exact Ho).
  all: rewrite held_count_app; unfold held_count; simpl; lia.
Qed.

Lemma load_scene_keeps_replaced_shapes_witness :
  let r := frames [[ClickLoadScene]] loaded_world in
  recognized_shape (shape (controls loaded_world)) = true /\
  outcome r = Ok tt /\
  gpu_count loaded_world = 2%nat /\
  gpu_count (final r) = 4%nat.
Proof.
  cbv zeta.
  assert (Hr : recognized_shape (shape (controls loaded_world)) = true)
    by (vm_compute; reflexivity).
  destruct (load_scene_keeps_replaced_shapes loaded_world Hr)
    as (H1 & _ & _ & H4).
  split; [exact Hr|]. split; [exact H1|].
  split; [vm_compute; reflexivity|]. rewrite H4. vm_compute. reflexivity.
Defined.

(** ** The classes of the objects *)

Lemma geometry_at_alter b o (st : list Drawable) i :
  geometry_at (alter (set_buffers b) o st) i = geometry_at st i.
Proof.
  unfold geometry_at. destruct (decide (o = i)) as [->|Hne].
  - rewrite list_lookup_alter_eq. now destruct (st !! i).
  - now rewrite list_lookup_alter_ne.
Qed.

Lemma geometry_at_app_old (st l : list Drawable) i g :
  geometry_at st i = Some g -> geometry_at (st ++ l) i = Some g.
Proof.
  unfold geometry_at. destruct (st !! i) as [d|] eqn:E; [|discriminate].
  intros H. now rewrite (lookup_app_l_Some _ _ _ _ E).
Qed.

Lemma geometry_at_app_new (st : list Drawable) d :
  geometry_at (st ++ [d]) (length st) = Some (geometry d).
Proof.
  unfold geometry_at. now rewrite list_lookup_middle.
Qed.

Lemma persists_refl st : persists st st.
Proof. now intros o g. Qed.

Lemma persists_trans st1 st2 st3 :
  persists st1 st2 -> persists st2 st3 -> persists st1 st3.
Proof. intros H1 H2 o g H. now apply H2, H1. Qed.

Lemma persists_alter st st' b o :
  persists st st' -> persists st (alter (set_buffers b) o st').
Proof. intros H i g Hg. rewrite geometry_at_alter. now apply H. Qed.

Lemma persists_app st st' l :
  persists st st' -> persists st (st' ++ l).
Proof. intros H i g Hg. now apply geometry_at_app_old, H. Qed.

Ltac persists_tac :=
  repeat first [apply persists_alter | apply persists_app]; apply persists_refl.

Lemma tick_persists w : persists (store w) (store (final (tick w))).
Proof.
  destruct w as [[n sh sn r g b] i s q p t st].
  unfold_js. destruct (n =? p)%Z; run_js; first [congruence|persists_tac].
Qed.

Lemma loadScene_persists w : persists (store w) (store (final (loadScene w))).
Proof. rewrite loadScene_run. cbv zeta. cbn [final store]. persists_tac. Qed.

Lemma gui_action_persists a w :
  persists (store w) (store (final (gui_action a w))).
Proof.
  destruct a; try apply persists_refl. apply loadScene_persists.
Qed.

Lemma gui_actions_persists acts : forall w,
  persists (store w) (store (final (gui_actions acts w))).
Proof.
  induction acts as [|a acts IH]; intros w; [apply persists_refl|].
  cbn [gui_actions]. rewrite (bind_ok _ _ _ tt) by apply gui_action_ok.
  cbn [final]. eapply persists_trans; [apply gui_action_persists|apply IH].
Qed.

Lemma frames_persists rounds : forall w,
  persists (store w) (store (final (frames rounds w))).
Proof.
  induction rounds as [|acts rest IH]; intros w; [apply persists_refl|].
  rewrite frames_cons. cbv zeta.
  eapply persists_trans; [apply gui_actions_persists|].
  destruct (outcome (tick (final (gui_actions acts w)))); cbn [final].
  - eapply persists_trans; [apply tick_persists|apply IH].
  - apply tick_persists.
Qed.

Lemma tick_cube w : cube (final (tick w)) = cube w.
Proof.
  destruct w as [[n sh sn r g b] i s q p t st].
  unfold_js. destruct (n =? p)%Z; run_js; first [congruence|reflexivity].
Qed.

Lemma tick_icosphere w :
  if (tesselations (controls w) =? prevTesselations w)%Z then
    icosphere (final (tick w)) = icosphere w
  else
    icosphere (final (tick w)) = Some (length (store w)) /\
    geometry_at (store (final (tick w))) (length (store w)) =
      Some (Icosphere origin 1 (tesselations (controls w))).
Proof.
  destruct w as [[n sh sn r g b] i s q p t st].
  unfold_js. destruct (n =? p)%Z; run_js;
    first [congruence | reflexivity
          | split; [reflexivity|];
            rewrite ?geometry_at_alter; apply geometry_at_app_new ].
Qed.

Lemma tick_well_typed w : well_typed w -> well_typed (final (tick w)).
Proof.
  intros [Hi Hc]. pose proof (tick_persists w) as Hp.
  pose proof (tick_icosphere w) as Ht. split.
  - intros i. destruct (tesselations (controls w) =? prevTesselations w)%Z.
    + rewrite Ht. intros H. destruct (Hi i H) as (g & Hg & Hk).
      exists g. split; [now apply Hp|exact Hk].
    + destruct Ht as [-> Hg]. intros [= <-]. eexists.
      split; [exact Hg|reflexivity].
  - intros c. rewrite tick_cube. intros H. destruct (Hc c H) as (g & Hg & Hk).
    exists g. split; [now apply Hp|exact Hk].
Qed.

Lemma loadScene_well_typed w : well_typed (final (loadScene w)).
Proof.
  rewrite loadScene_run. cbv zeta. cbn [final]. split; cbn [icosphere cube store].
  - intros i [= <-]. eexists. split.
    + unfold geometry_at. rewrite list_lookup_middle by reflexivity.
      reflexivity.
    + reflexivity.
  - intros c [= <-]. eexists. split.
    + unfold geometry_at. rewrite lookup_app_r by lia.
      replace (length (store w) + 2 - length (store w))%nat with 2%nat by lia.
      reflexivity.
    + reflexivity.
Qed.

Lemma gui_action_well_typed a w :
  well_typed w -> well_typed (final (gui_action a w)).
Proof.
  destruct a; try (intros H; exact H). intros _. apply loadScene_well_typed.
Qed.

Lemma gui_actions_well_typed acts : forall w,
  well_typed w -> well_typed (final (gui_actions acts w)).
Proof.
  induction acts as [|a acts IH]; intros w H; [exact H|].
  cbn [gui_actions]. rewrite (bind_ok _ _ _ tt) by apply gui_action_ok.
  cbn [final]. now apply IH, gui_action_well_typed.
Qed.

Lemma avoids_squares_persists st st' e :
  persists st st' -> avoids_squares st e -> avoids_squares st' e.
Proof.
  intros Hp. destruct e; simpl; try tauto.
  - intros (g & Hg & Hk). exists g. split; [now apply Hp|exact Hk].
  - intros (o & g & Hd & Hg & Hk). exists o, g.
    split; [exact Hd|]. split; [now apply Hp|exact Hk].
Qed.

Lemma not_square_of_icosphere g : is_icosphere g = true -> is_square g = false.
Proof. now destruct g. Qed.

Lemma not_square_of_cube g : is_cube g = true -> is_square g = false.
Proof. now destruct g. Qed.

Lemma selected_not_square w o :
  well_typed w -> selected w = Some o ->
  exists g, geometry_at (store w) o = Some g /\ is_square g = false.
Proof.
  intros [Hi Hc]. unfold selected.
  destruct (shape (controls w) =? "icosphere").
  - intros H. destruct (Hi o H) as (g & Hg & Hk). exists g.
    split; [exact Hg|now apply not_square_of_icosphere].
  - destruct (shape (controls w) =? "cube"); [|discriminate].
    intros H. destruct (Hc o H) as (g & Hg & Hk). exists g.
    split; [exact Hg|now apply not_square_of_cube].
Qed.

Lemma tick_destroys w o :
  In (EDestroy o) (events (tick w)) -> deselected (final (tick w)) = Some o.
Proof.
  destruct w as [[n sh sn r g b] i s q p t st].
  unfold deselected. unfold_js. destruct (n =? p)%Z; run_js; intros H;
    pick_event H; try congruence; injection H as <-; reflexivity.
Qed.

Lemma deselected_not_square w o :
  well_typed w -> deselected w = Some o ->
  exists g, geometry_at (store w) o = Some g /\ is_square g = false.
Proof.
  intros [Hi Hc]. unfold deselected.
  destruct (shape (controls w) =? "icosphere").
  - intros H. destruct (Hc o H) as (g & Hg & Hk). exists g.
    split; [exact Hg|now apply not_square_of_cube].
  - destruct (shape (controls w) =? "cube"); [|discriminate].
    intros H. destruct (Hi o H) as (g & Hg & Hk). exists g.
    split; [exact Hg|now apply not_square_of_icosphere].
Qed.

Lemma tick_avoids_squares w :
  well_typed w ->
  Forall (avoids_squares (store (final (tick w)))) (events (tick w)).
Proof.
  intros Hw. pose proof (tick_well_typed w Hw) as Hw'.
  apply List.Forall_forall. intros e He. destruct e; simpl; try exact I.
  - apply (deselected_not_square _ _ Hw'). now apply tick_destroys.
  - destruct (tick_render_args w _ _ _ _ He) as (_ & _ & _ & o & -> & Ho).
    destruct (selected_not_square _ _ Hw' Ho) as (g & Hg & Hk).
    now exists o, g.
Qed.

Lemma main_working_decompose w :
  outcome (main working_host w) = outcome (tick (final (loadScene w))) /\
  final (main working_host w) = final (tick (final (loadScene w))) /\
  events (main working_host w) =
    (EStatsInit :: map EGuiAdd gui_widgets)
    ++ [EGetContext; ESetGL true]
    ++ events (loadScene w)
    ++ [ENewCamera; ENewRenderer; ESetClearColor; EEnableDepthTest;
        ENewShaderProgram gradient; ENewShaderProgram lambert;
        ENewShaderProgram noise; EAddResizeListener; ESetSize;
        ESetAspectRatio; EUpdateProjectionMatrix]
    ++ events (tick (final (loadScene w))).
Proof.
  destruct w as [[n sh sn r g b] i s q p t st].
  unfold working_host, main. cbv [canvas_present webgl2]. unfold_main.
  destruct (n =? p)%Z; run_js;
    first [congruence | repeat split; reflexivity].
Qed.

Lemma avoids_squares_trivial st t :
  forallb (fun e => negb (is_render e || is_destroy e)) t = true ->
  Forall (avoids_squares st) t.
Proof.
  intros H. apply List.Forall_forall. intros e He.
  rewrite forallb_forall in H. specialize (H e He).
  destruct e; simpl in *; try exact I; discriminate H.
Qed.

Lemma gui_actions_avoid_squares st acts : forall w,
  Forall (avoids_squares st) (events (gui_actions acts w)).
Proof.
  induction acts as [|a acts IH]; intros w; [constructor|].
  cbn [gui_actions]. rewrite (bind_ok _ _ _ tt) by apply gui_action_ok.
  cbn [events]. apply Forall_app. split; [|apply IH].
  apply avoids_squares_trivial. destruct a; reflexivity.
Qed.

Lemma frames_avoid_squares rounds : forall w,
  well_typed w ->
  Forall (avoids_squares (store (final (frames rounds w))))
         (events (frames rounds w)).
Proof.
  induction rounds as [|acts rest IH]; intros w Hw; [constructor|].
  rewrite frames_cons. cbv zeta.
  pose proof (gui_actions_well_typed acts w Hw) as Hw1.
  set (w1 := final (gui_actions acts w)) in *.
  pose proof (tick_avoids_squares w1 Hw1) as Ht.
  destruct (outcome (tick w1)); cbn [final events].
  - apply Forall_app. split; [apply gui_actions_avoid_squares|].
    apply Forall_app. split; [|apply IH; now apply tick_well_typed].
    eapply Forall_impl; [exact Ht|]. intros e.
    apply avoids_squares_persists, frames_persists.
  - apply Forall_app. split; [apply gui_actions_avoid_squares|exact Ht].
Qed.

Lemma main_failing h w :
  h <> working_host ->
  (exists e, outcome (main h w) = Throw e) /\
  forallb (fun e => negb (is_render e || is_destroy e)) (events (main h w))
  = true.
Proof.
  intros Hh. destruct w as [c i s q p t st].
  destruct h as [[] []]; [now contradiction Hh| | |];
    unfold main; cbv [canvas_present webgl2]; unfold_main;
    (split; [eexists|]; reflexivity).
Qed.

Lemma main_avoids_squares h w :
  Forall (avoids_squares (store (final (main h w)))) (events (main h w)) /\
  (outcome (main h w) = Ok tt -> well_typed (final (main h w))).
Proof.
  assert (Hd : h = working_host \/ h <> working_host).
  { destruct h as [[] []]; [now left| | |]; right; discriminate. }
  destruct Hd as [->|Hh].
  - destruct (main_working_decompose w) as (_ & -> & ->).
    pose proof (loadScene_well_typed w) as Hl.
    split; [|intros _; now apply tick_well_typed].
    apply Forall_app. split; [now apply avoids_squares_trivial|].
    apply Forall_app. split; [now apply avoids_squares_trivial|].
    apply Forall_app. split.
    { apply avoids_squares_trivial. rewrite loadScene_run. reflexivity. }
    apply Forall_app. split; [now apply avoids_squares_trivial|].
    now apply tick_avoids_squares.
  - destruct (main_failing h w Hh) as [[e He] Hf].
    split; [now apply avoids_squares_trivial|]. rewrite He. discriminate.
Qed.

(* X7 *)
(** Property X8.  In every run of the program, on any host and with any
    GUI actions, every call of [renderer.render] draws exactly one object,
    which is an icosphere or a cube and never the square, and every call of
    [destroy] is on an icosphere or a cube: the square that [loadScene]
    builds and uploads is neither drawn nor released. *)
Theorem square_is_never_drawn_nor_destroyed h inputs w :
  Forall (avoids_squares (store (final (program h inputs w))))
         (events (program h inputs w)).
Proof.
  rewrite program_run. destruct (main_avoids_squares h w) as [Hm Ht].
  destruct (outcome (main h w)) as [[]|e]; cbn [final events]; [|exact Hm].
  apply Forall_app. split.
  - eapply Forall_impl; [exact Hm|]. intros e.
    apply avoids_squares_persists, frames_persists.
  - apply frames_avoid_squares. now apply Ht.
Qed.

(** ** The level of the icosphere *)

Lemma tick_icosphere_geometry w :
  icosphere_geometry w = Some (Icosphere origin 1 (prevTesselations w)) \/
  icosphere_geometry w = Some (Icosphere origin 1 (tesselations (controls w))) ->
  icosphere_geometry (final (tick w)) =
    Some (Icosphere origin 1 (tesselations (controls w))).
Proof.
  intros H. pose proof (tick_icosphere w) as Ht.
  pose proof (tick_persists w) as Hp. unfold icosphere_geometry in *.
  destruct (tesselations (controls w) =? prevTesselations w)%Z eqn:E.
  - apply Z.eqb_eq in E. rewrite <- E in H. rewrite Ht.
    destruct (icosphere w) as [i|]; [|now destruct H].
    apply Hp. now destruct H.
  - destruct Ht as [-> Hg]. exact Hg.
Qed.

Lemma loadScene_icosphere_geometry w :
  icosphere_geometry (final (loadScene w)) =
    Some (Icosphere origin 1
            (tesselations (controls (final (loadScene w))))).
Proof.
  rewrite loadScene_run. cbv zeta. unfold icosphere_geometry, geometry_at.
  cbn [final icosphere store controls].
  now rewrite list_lookup_middle by reflexivity.
Qed.

Lemma gui_actions_level_after_load acts : forall w,
  forallb (fun a => negb (is_set_tesselations a)) acts = true ->
  icosphere_geometry w = Some (Icosphere origin 1 (tesselations (controls w))) ->
  icosphere_geometry (final (gui_actions acts w)) =
    Some (Icosphere origin 1
            (tesselations (controls (final (gui_actions acts w))))).
Proof.
  induction acts as [|a acts IH]; intros w H Hw; [exact Hw|].
  simpl in H. apply andb_true_iff in H as [Ha Hacts].
  cbn [gui_actions]. rewrite (bind_ok _ _ _ tt) by apply gui_action_ok.
  cbn [final]. apply IH; [exact Hacts|].
  destruct a; try exact Hw; [discriminate Ha|].
  apply loadScene_icosphere_geometry.
Qed.

Lemma gui_actions_level acts : forall w,
  slider_before_load acts = true ->
  icosphere_geometry w = Some (Icosphere origin 1 (prevTesselations w)) ->
  let w' := final (gui_actions acts w) in
  icosphere_geometry w' = Some (Icosphere origin 1 (prevTesselations w')) \/
  icosphere_geometry w' = Some (Icosphere origin 1 (tesselations (controls w'))).
Proof.
  induction acts as [|a acts IH]; intros w H Hw; [now left|].
  cbv zeta. cbn [gui_actions].
  rewrite (bind_ok _ _ _ tt) by apply gui_action_ok. cbn [final].
  destruct a; cbn [slider_before_load] in H;
    try (apply IH; [exact H|exact Hw]).
  right. apply gui_actions_level_after_load; [exact H|].
  apply loadScene_icosphere_geometry.
Qed.

(** Property X9.  Starting from a state in which the icosphere has the
    remembered level, after at least one frame the icosphere is the one at
    the origin with radius 1 and the level the slider shows, and that level
    is the remembered one, provided that in no gap between frames the slider
    is moved after a click on 'Load Scene'. *)
Theorem icosphere_has_the_slider_level rounds : forall w,
  icosphere_geometry w = Some (Icosphere origin 1 (prevTesselations w)) ->
  forallb slider_before_load rounds = true ->
  rounds <> [] ->
  let w' := final (frames rounds w) in
  icosphere_geometry w' =
    Some (Icosphere (0, 0, 0) 1 (tesselations (controls w'))) /\
  prevTesselations w' = tesselations (controls w').
Proof.
  induction rounds as [|acts rest IH]; intros w Hw H Hne; [congruence|].
  simpl in H. apply andb_true_iff in H as [Hacts Hrest].
  cbv zeta. rewrite frames_cons. cbv zeta.
  pose proof (gui_actions_level acts w Hacts Hw) as Hg. cbv zeta in Hg.
  set (w1 := final (gui_actions acts w)) in *.
  pose proof (tick_icosphere_geometry w1 Hg) as Ht.
  pose proof (tick_prevTesselations w1) as Hp.
  pose proof (tick_controls w1) as Hc.
  assert (Hfin : icosphere_geometry (final (tick w1)) =
                 Some (Icosphere origin 1
                         (tesselations (controls (final (tick w1))))) /\
                 prevTesselations (final (tick w1)) =
                 tesselations (controls (final (tick w1)))).
  { rewrite Hc. now split. }
  destruct (outcome (tick w1)); cbn [final]; [|exact Hfin].
  destruct rest as [|acts' rest']; [exact Hfin|].
  apply IH; [|exact Hrest|discriminate].
  destruct Hfin as [-> ->]. reflexivity.
Qed.

Lemma icosphere_has_the_slider_level_witness :
  let rounds := [[SetTesselations 3; ClickLoadScene]; [SetShape "cube"];
                 [SetTesselations 7; ClickLoadScene]] in
  icosphere_geometry loaded_world =
    Some (Icosphere origin 1 (prevTesselations loaded_world)) /\
  forallb slider_before_load rounds = true /\
  icosphere_geometry (final (frames rounds loaded_world)) =
    Some (Icosphere (0, 0, 0) 1 7).
Proof.
  cbv zeta.
  assert (H1 : icosphere_geometry loaded_world =
               Some (Icosphere origin 1 (prevTesselations loaded_world)))
    by (vm_compute; reflexivity).
  assert (H2 : forallb slider_before_load
                 [[SetTesselations 3; ClickLoadScene]; [SetShape "cube"];
                  [SetTesselations 7; ClickLoadScene]] = true)
    by reflexivity.
  assert (H3 : [[SetTesselations 3; ClickLoadScene]; [SetShape "cube"];
                [SetTesselations 7; ClickLoadScene]] <> [])
    by discriminate.
  destruct (icosphere_has_the_slider_level _ loaded_world H1 H2 H3) as [G _].
  split; [exact H1|]. split; [exact H2|].
  rewrite G. vm_compute. reflexivity.
Defined.

(** Without the condition on the order, the icosphere can lag behind. *)
(** The side condition of the last theorem cannot be dropped: when the
    slider is moved after the click, the icosphere keeps the level it was
    loaded with. *)
Lemma slider_after_load_example :
  let w := final (frames [[SetTesselations 3; ClickLoadScene;
                           SetTesselations 5]] loaded_world) in
  tesselations (controls w) = 5 /\
  icosphere_geometry w = Some (Icosphere (0, 0, 0) 1 3).
Proof. vm_compute. split; reflexivity. Qed.

(** ** Regeneration while the cube is shown *)
(** Property X10.  When the tessellation slider is moved while the cube is
    shown, the next [tick] builds the new icosphere, calls [create] on it
    and, in the same [tick], [destroy] on it, then [create] on the cube,
    which is the one object drawn.  With [create] and [destroy] as acquiring
    and releasing buffers, the new icosphere holds none after the [tick]. *)
Theorem regeneration_while_cube_is_shown w :
  loaded w = true ->
  shape (controls w) = "cube" ->
  tesselations (controls w) <> prevTesselations w ->
  let n := length (store w) in
  exists c,
    cube w = Some c /\
    outcome (tick w) = Ok tt /\
    List.filter is_scene_call (events (tick w)) =
      [ENew n (Icosphere (0, 0, 0) 1 (tesselations (controls w)));
       ECreate n; EDestroy n; ECreate c] /\
    icosphere (final (tick w)) = Some n /\
    holds_buffers (final (tick w)) n = false /\
    renders (events (tick w)) =
      [ERender (shader_for (shaderName (controls w))) [c]
               (color_override (controls w)) (time w)].
Proof.
  intros Hl Hs Hne. cbv zeta.
  destruct (loaded_inv _ Hl) as (i & c & Hi & Hc & Hic & Hli & Hlc).
  exists c. split; [exact Hc|].
  assert (E1 : (shape (controls w) =? "icosphere") = false)
    by now rewrite Hs.
  assert (E2 : (shape (controls w) =? "cube") = true) by now rewrite Hs.
  clear Hs. destruct w as [[m sh sn r g b] vi vs vc p t st].
  cbn [controls shape tesselations prevTesselations icosphere cube store]
    in *.
  subst vi vc. unfold holds_buffers. unfold_js.
  destruct (m =? p)%Z eqn:E; [now apply Z.eqb_eq in E|].
  settle. repeat split. store_simpl. reflexivity.
Qed.

Lemma regeneration_while_cube_is_shown_witness :
  let w := final (gui_actions [SetShape "cube"; SetTesselations 2]
                    loaded_world) in
  loaded w = true /\
  outcome (tick w) = Ok tt /\
  icosphere (final (tick w)) = Some 3%nat /\
  holds_buffers (final (tick w)) 3 = false.
Proof.
  cbv zeta.
  assert (Hl : loaded (final (gui_actions [SetShape "cube"; SetTesselations 2]
                                loaded_world)) = true)
    by (vm_compute; reflexivity).
  assert (Hne : tesselations
                  (controls (final (gui_actions
                                      [SetShape "cube"; SetTesselations 2]
                                      loaded_world)))
                <> prevTesselations
                     (final (gui_actions [SetShape "cube"; SetTesselations 2]
                               loaded_world)))
    by (vm_compute; discriminate).
  destruct (regeneration_while_cube_is_shown _ Hl eq_refl Hne)
    as (c & _ & H1 & _ & H3 & H4 & _).
  split; [exact Hl|]. split; [exact H1|]. split; [exact H3|exact H4].
Defined.

(** ** Runs driven by the widgets *)

Lemma gui_action_controls a w :
  controls (final (gui_action a w)) = write_control a (controls w).
Proof. destruct a; reflexivity. Qed.

Lemma allowed_write_control a c :
  allowed a = true ->
  nominal_controls c = true ->
  nominal_controls (write_control a c) = true.
Proof.
  unfold nominal_controls, in_slider_ranges, allowed, slider_allows,
    select_allows, button_allows, recognized_shape, recognized_shader.
  destruct a; cbn; rewrite ?orb_false_r, ?andb_true_iff, ?orb_true_iff;
    intuition.
Qed.

Lemma shader_for_recognized s :
  recognized_shader s = true -> exists p, shader_for s = Some p.
Proof.
  unfold recognized_shader, shader_for.
  destruct (s =? "lambert"); [now eexists|].
  destruct (s =? "fixed gradient"); [now eexists|].
  destruct (s =? "noise"); [now eexists|discriminate].
Qed.

Lemma slider_color_in_unit_interval n :
  (0 <=? n)%Z = true -> (n <=? 255)%Z = true ->
  in_unit_interval
    (to_float32 (number_div (number_of_Z n) (number_of_Z 255))) = true.
Proof.
  intros H0 H1. apply Z.leb_le in H0, H1.
  apply (slider_values_all
           (fun n => in_unit_interval
                       (to_float32 (number_div (number_of_Z n)
                                               (number_of_Z 255)))));
    [vm_compute; reflexivity|lia].
Qed.

Lemma tick_renders_nominal w :
  nominal_controls (controls w) = true ->
  forallb render_nominal (events (tick w)) = true.
Proof.
  unfold nominal_controls, in_slider_ranges.
  rewrite !andb_true_iff.
  intros [[_ Hs] [[[[[[[_ _] R0] R1] G0] G1] B0] B1]].
  apply forallb_forall. intros e He.
  destruct e; try reflexivity.
  destruct (tick_render_args w _ _ _ _ He) as (-> & -> & _ & _).
  destruct (shader_for_recognized _ Hs) as [p ->].
  unfold render_nominal, color_override, vec4_fromValues.
  now rewrite !slider_color_in_unit_interval.
Qed.

Lemma allowed_actions_nominal acts : forall w,
  forallb allowed acts = true ->
  nominal_controls (controls w) = true ->
  nominal_controls (controls (final (gui_actions acts w))) = true.
Proof.
  induction acts as [|a acts IH]; intros w H Hw; [exact Hw|].
  simpl in H. apply andb_true_iff in H as [Ha Hacts].
  cbn [gui_actions]. rewrite (bind_ok _ _ _ tt) by apply gui_action_ok.
  cbn [final]. apply IH; [exact Hacts|].
  rewrite gui_action_controls. now apply allowed_write_control.
Qed.

Lemma gui_actions_render_nominal acts : forall w,
  forallb render_nominal (events (gui_actions acts w)) = true.
Proof.
  induction acts as [|a acts IH]; intros w; [reflexivity|].
  cbn [gui_actions]. rewrite (bind_ok _ _ _ tt) by apply gui_action_ok.
  cbn [events]. rewrite forallb_app, IH, andb_true_r.
  destruct a; reflexivity.
Qed.

Lemma frames_nominal inputs : forall w,
  forallb (forallb allowed) inputs = true ->
  loaded w = true ->
  nominal_controls (controls w) = true ->
  outcome (frames inputs w) = Ok tt /\
  nominal_controls (controls (final (frames inputs w))) = true /\
  forallb render_nominal (events (frames inputs w)) = true.
Proof.
  induction inputs as [|acts rest IH]; intros w H Hl Hn; [now repeat split|].
  simpl in H. apply andb_true_iff in H as [Hacts Hrest].
  pose proof (allowed_actions_nominal acts w Hacts Hn) as Hn1.
  assert (Hr : recognized_shape (shape (controls w)) = true).
  { unfold nominal_controls in Hn. rewrite !andb_true_iff in Hn. tauto. }
  destruct (allowed_actions_ready acts w Hacts (conj Hl Hr)) as [Hl1 Hr1].
  rewrite frames_cons. cbv zeta.
  set (w1 := final (gui_actions acts w)) in *.
  destruct (tick_settles w1 Hl1 Hr1) as (Hok & Hl2 & _).
  rewrite Hok. cbn [outcome final events].
  destruct (IH (final (tick w1)) Hrest Hl2) as (G1 & G2 & G3).
  { now rewrite tick_controls. }
  split; [exact G1|]. split; [exact G2|].
  now rewrite !forallb_app, gui_actions_render_nominal, tick_renders_nominal, G3.
Qed.

(** Property X11.  On a working page, when the user only uses the widgets
    within their options and ranges, the run never throws, the controls
    stay within the options and ranges, and every call of [renderer.render]
    gets a shader program and an opaque colour with components in
    [0, 1]. *)
Theorem widget_input_never_throws inputs :
  forallb (forallb allowed) inputs = true ->
  let r := program working_host inputs initial_world in
  outcome r = Ok tt /\
  nominal_controls (controls (final r)) = true /\
  forallb render_nominal (events r) = true.
Proof.
  intros H. cbv zeta. rewrite program_run, main_working_run.
  cbn [outcome final events].
  assert (Hl : loaded loaded_world = true) by (vm_compute; reflexivity).
  assert (Hn : nominal_controls (controls loaded_world) = true)
    by (vm_compute; reflexivity).
  destruct (frames_nominal inputs loaded_world H Hl Hn) as (G1 & G2 & G3).
  split; [exact G1|]. split; [exact G2|].
  rewrite forallb_app, G3, andb_true_r. vm_compute. reflexivity.
Qed.

Lemma widget_input_never_throws_witness :
  let inputs := [[SetShape "cube"; SetLambertR 255]; [SetShaderName "noise"];
                 [SetTesselations 8; ClickLoadScene; SetLambertB 0]] in
  forallb (forallb allowed) inputs = true /\
  outcome (program working_host inputs initial_world) = Ok tt.
Proof.
  cbv zeta.
  assert (H : forallb (forallb allowed)
                [[SetShape "cube"; SetLambertR 255]; [SetShaderName "noise"];
                 [SetTesselations 8; ClickLoadScene; SetLambertB 0]] = true)
    by (vm_compute; reflexivity).
  destruct (widget_input_never_throws _ H) as (G & _).
  split; [exact H|exact G].
Defined.

(** ** The buffers of the square *)

Lemma tick_square w : square (final (tick w)) = square w.
Proof.
  destruct w as [[n sh sn r g b] i s q p t st].
  unfold_js. destruct (n =? p)%Z; run_js; first [congruence|reflexivity].
Qed.

Lemma tick_keeps_square_buffers w s g :
  well_typed w ->
  geometry_at (store w) s = Some g -> is_square g = true ->
  held (store (final (tick w))) s = held (store w) s.
Proof.
  intros [Hi Hc] Hg Hk.
  assert (Hi' : icosphere w <> Some s).
  { intros H. destruct (Hi s H) as (g' & Hg' & Hk').
    rewrite Hg in Hg'. injection Hg' as <-. now destruct g. }
  assert (Hc' : cube w <> Some s).
  { intros H. destruct (Hc s H) as (g' & Hg' & Hk').
    rewrite Hg in Hg'. injection Hg' as <-. now destruct g. }
  assert (Hs : (s < length (store w))%nat).
  { unfold geometry_at in Hg. apply lookup_lt_is_Some.
    destruct (store w !! s); [now eexists|discriminate]. }
  clear Hi Hc Hg Hk.
  destruct w as [[n sh sn r g' b] i vs q p t st].
  cbn [icosphere cube store] in *. revert Hi' Hc'.
  unfold_js. destruct (n =? p)%Z; run_js; intros Hi' Hc';
    try congruence;
    repeat first
      [ rewrite held_alter_ne by first [lia | congruence]
      | rewrite held_snoc by lia ];
    reflexivity.
Qed.

Lemma tick_square_uploaded w :
  well_typed w -> square_uploaded w -> square_uploaded (final (tick w)).
Proof.
  intros Hw (s & Hs & Hg & Hh). exists s.
  split; [now rewrite tick_square|].
  split; [now apply tick_persists|].
  unfold holds_buffers in *.
  now rewrite (tick_keeps_square_buffers w s (Square origin) Hw Hg eq_refl).
Qed.

Lemma loadScene_square_uploaded w : square_uploaded (final (loadScene w)).
Proof.
  rewrite loadScene_run. cbv zeta. cbn [final].
  exists (length (store w) + 1)%nat.
  unfold holds_buffers, held, geometry_at. cbn [square store].
  rewrite lookup_app_r by lia.
  replace (length (store w) + 1 - length (store w))%nat with 1%nat by lia.
  repeat split; reflexivity.
Qed.

Lemma gui_actions_square_uploaded acts : forall w,
  square_uploaded w -> square_uploaded (final (gui_actions acts w)).
Proof.
  induction acts as [|a acts IH]; intros w H; [exact H|].
  cbn [gui_actions]. rewrite (bind_ok _ _ _ tt) by apply gui_action_ok.
  cbn [final]. apply IH. destruct a; try exact H.
  apply loadScene_square_uploaded.
Qed.

Lemma frames_square_uploaded rounds : forall w,
  well_typed w -> square_uploaded w ->
  square_uploaded (final (frames rounds w)).
Proof.
  induction rounds as [|acts rest IH]; intros w Hw Hs; [exact Hs|].
  rewrite frames_cons. cbv zeta.
  pose proof (gui_actions_well_typed acts w Hw) as Hw1.
  pose proof (gui_actions_square_uploaded acts w Hs) as Hs1.
  set (w1 := final (gui_actions acts w)) in *.
  pose proof (tick_square_uploaded w1 Hw1 Hs1) as Hs2.
  destruct (outcome (tick w1)); cbn [final]; [|exact Hs2].
  apply IH; [now apply tick_well_typed|exact Hs2].
Qed.

(** Property X12.  With [create] and [destroy] as acquiring and releasing
    buffers: whenever [main] returns, at every later point of the run the
    variable [square] is bound to a square at the origin that holds its
    buffers, although no frame draws it. *)
Theorem square_stays_uploaded h inputs w :
  outcome (main h w) = Ok tt ->
  square_uploaded (final (program h inputs w)).
Proof.
  intros Hok. rewrite program_run, Hok. cbn [final].
  assert (Hh : h = working_host).
  { assert (Hd : h = working_host \/ h <> working_host).
    { destruct h as [[] []]; [now left| | |]; right; discriminate. }
    destruct Hd as [Hd|Hd]; [exact Hd|].
    destruct (main_failing h w Hd) as [[e He] _].
    rewrite He in Hok. discriminate Hok. }
  subst h. destruct (main_working_decompose w) as (_ & Hf & _).
  apply frames_square_uploaded.
  - destruct (main_avoids_squares working_host w) as [_ Ht]. now apply Ht.
  - rewrite Hf. apply tick_square_uploaded;
      [apply loadScene_well_typed|apply loadScene_square_uploaded].
Qed.

Lemma square_stays_uploaded_witness :
  outcome (main working_host initial_world) = Ok tt /\
  square_uploaded
    (final (program working_host
              [[ClickLoadScene]; [SetShape "cube"; SetTesselations 1]]
              initial_world)).
Proof.
  assert (H : outcome (main working_host initial_world) = Ok tt)
    by (rewrite main_working_run; reflexivity).
  split; [exact H|].
  exact (square_stays_uploaded working_host
           [[ClickLoadScene]; [SetShape "cube"; SetTesselations 1]]
           initial_world H).
Defined.

(** ** A frame in which nothing changed *)
(** Property X13.  A frame in which neither the shape selector nor the
    tessellation changed still calls [destroy] on the shape that is not
    shown and [create] on the shape that is shown, and makes no other scene
    call. *)
Theorem unchanged_frame_still_destroys_and_creates w :
  loaded w = true ->
  recognized_shape (shape (controls w)) = true ->
  tesselations (controls w) = prevTesselations w ->
  exists o o',
    selected w = Some o /\ deselected w = Some o' /\
    List.filter is_scene_call (events (tick w)) = [EDestroy o'; ECreate o].
Proof.
  intros Hl Hr Hn. enter_tick w Hl Hr; cbn in Hn; subst p; settle;
    do 2 eexists; settle; repeat split; reflexivity.
Qed.

Lemma unchanged_frame_still_destroys_and_creates_witness :
  loaded loaded_world = true /\
  List.filter is_scene_call (events (tick loaded_world)) =
    [EDestroy 2%nat; ECreate 0%nat].
Proof.
  assert (Hl : loaded loaded_world = true) by (vm_compute; reflexivity).
  destruct (unchanged_frame_still_destroys_and_creates loaded_world Hl
              eq_refl eq_refl) as (o & o' & Ho & Ho' & H).
  split; [exact Hl|].
  assert (E : o = 0%nat) by (vm_compute in Ho; congruence).
  assert (E' : o' = 2%nat) by (vm_compute in Ho'; congruence).
  now rewrite H, E, E'.
Defined.

(** ** The order of the initialisation *)

(** Property X14.  In [main], on any host: the context is handed to
    [setGL] before [create] is called on any shape, and the depth test is
    enabled, the three shader programs are built and the resize listener is
    registered before the first [tick] starts. *)
Theorem startup_order h w :
  let t := events (main h w) in
  precedes is_set_gl is_create t = true /\
  precedes is_depth_test is_tick_start t = true /\
  precedes (is_new_shader gradient) is_tick_start t = true /\
  precedes (is_new_shader lambert) is_tick_start t = true /\
  precedes (is_new_shader noise) is_tick_start t = true /\
  precedes is_resize_listener is_tick_start t = true.
Proof.
  cbv zeta.
  assert (Hd : h = working_host \/ h <> working_host).
  { destruct h as [[] []]; [now left| | |]; right; discriminate. }
  destruct Hd as [->|Hd].
  - destruct (main_working_decompose w) as (_ & _ & ->).
    rewrite loadScene_run. cbv zeta. repeat split; reflexivity.
  - destruct w as [c i s q p t st].
    destruct h as [[] []]; [now contradiction Hd| | |];
      unfold main; cbv [canvas_present webgl2]; unfold_main;
      repeat split; reflexivity.
Qed.
